(** * dlog: the text encoder, the level gate and the log call

    A shallow embedding of the Go package [dlog] (meta.go, the text
    encoder, the logger and the write syncers) together with the
    properties of its encoding pipeline.

    Conventions.
    - [[]byte] is [list byte]; a Go [string] is a [string]; the
      conversion [append(b, s...)] is [b ++ bytes_of s].
    - Go integers ([int], [int64], [uint64], [uintptr], [int32]) are
      [Z].  The code performs no arithmetic on them besides widening
      conversions, so no wrap-around occurs.
    - A [float64] is its IEEE-754 bit pattern (a [Z] below [2^64]).
    - Encoders live behind pointers ([*textEncoder]) and are recycled
      through [textPool]; they are modelled by a store of encoder
      cells indexed by locations, with an explicit free list.
    - A run is sequential: the mutex of the locked write syncer, the
      background sync of the log file, and the [panic] and the exit
      that follow the log call in [Panic] and [Fatal] are left out. *)

From Stdlib Require Import ZArith List Lia Bool.
From Stdlib Require Import Strings.String Strings.Byte.
From stdpp Require Import base tactics functions list gmap.

Import ListNotations.
Open Scope Z_scope.

(** ** Bytes and strings *)

Definition bytes_of (s : string) : list byte := list_byte_of_string s.

(** [len(b)] of Go, as an integer. *)
Definition len {A} (l : list A) : Z := Z.of_nat (length l).

(** ** The parts of Go's [strconv] that the encoder calls *)

Module strconv.

Definition digits : string := "0123456789abcdefghijklmnopqrstuvwxyz".

Definition digit (d : Z) : byte :=
  nth (Z.to_nat d) (bytes_of digits) "0"%byte.

(** The digit loop of [formatBits]: the least significant digit is
    produced first and stored in front of the ones already there. *)
Fixpoint formatBits_loop (fuel : nat) (base u : Z) (a : list byte)
  : list byte :=
  match fuel with
  | O => a
  | S fuel' =>
      if base <=? u
      then formatBits_loop fuel' base (u / base) (digit (u mod base) :: a)
      else digit u :: a
  end.

Definition formatBits (dst : list byte) (u base : Z) (neg : bool)
  : list byte :=
  dst ++ (if neg then ["-"%byte] else [])
      ++ formatBits_loop (S (Z.to_nat (Z.log2 u))) base u [].

Definition AppendInt (dst : list byte) (i base : Z) : list byte :=
  formatBits dst (Z.abs i) base (i <? 0).

Definition AppendUint (dst : list byte) (u base : Z) : list byte :=
  formatBits dst u base false.

Definition AppendBool (dst : list byte) (b : bool) : list byte :=
  dst ++ bytes_of (if b then "true" else "false").

Definition Itoa (i : Z) : list byte := AppendInt [] i 10.

(** *** [AppendFloat(dst, val, 'f', -1, 64)]

    The value is decoded from its bit pattern as in [genericFtoa].
    The digits are the shortest decimal that rounds back to the same
    float64 (what [strconv] documents for precision [-1]); they are
    found by a direct search over the rounding interval of the value
    instead of [strconv]'s Ryu tables.  [fmtF] lays the digits out
    without an exponent. *)

Record decimalSlice := { d : list byte; nd : Z; dp : Z }.

(** The value [mant * 2^exp2] and the bounds of its rounding interval
    (half way to the neighbouring floats, as in [roundShortest]), as
    fractions over one denominator: (value, lower, upper,
    denominator). *)
Definition bounds (mant exp2 : Z) : Z * Z * Z * Z :=
  let lower :=
    if (2 ^ 52 <? mant) || (exp2 =? -1074)
    then 4 * mant - 2 else 4 * mant - 1 in
  let k := exp2 - 2 in
  if 0 <=? k
  then (4 * mant * 2 ^ k, lower * 2 ^ k, (4 * mant + 2) * 2 ^ k, 1)
  else (4 * mant, lower, 4 * mant + 2, 2 ^ (- k)).

(** [n / den] compared with [c * 10^q] is [n * A] compared with
    [c * B]. *)
Definition cross (den q : Z) : Z * Z :=
  if 0 <=? q then (1, den * 10 ^ q) else (10 ^ (- q), den).

(** Is [c * 10^q] inside the interval from [lo / den] to [up / den]?
    The bounds belong to it when the mantissa is even. *)
Definition in_interval (inclusive : bool) (lo up den q c : Z) : bool :=
  let '(A, B) := cross den q in
  if inclusive
  then (lo * A <=? c * B) && (c * B <=? up * A)
  else (lo * A <? c * B) && (c * B <? up * A).

(** The largest [c] with [c * 10^q <= x / den]. *)
Definition floor_at (x den q : Z) : Z :=
  let '(A, B) := cross den q in (x * A) / B.

(** Of [c0 * 10^q] and [(c0 + 1) * 10^q], the one nearer to [x / den];
    the even one when they are as near. *)
Definition nearest (x den q c0 : Z) : Z :=
  let '(A, B) := cross den q in
  let down := x * A - c0 * B in
  let upd := (c0 + 1) * B - x * A in
  if down <? upd then c0
  else if upd <? down then c0 + 1
  else if Z.even c0 then c0 else c0 + 1.

(** Try the decimal exponent [q], then the smaller ones: the first
    exponent at which rounding the value down or up stays inside the
    interval gives the digits. *)
Fixpoint shortest_loop (fuel : nat) (inclusive : bool)
         (x lo up den q : Z) : Z * Z :=
  let c0 := floor_at x den q in
  let okdown := in_interval inclusive lo up den q c0 in
  let okup := in_interval inclusive lo up den q (c0 + 1) in
  if okdown && okup then (nearest x den q c0, q)
  else if okdown then (c0, q)
  else if okup then (c0 + 1, q)
  else match fuel with
       | O => (c0, q)
       | S fuel' => shortest_loop fuel' inclusive x lo up den (q - 1)
       end.

(** The exponent the search starts from, and the result [c * 10^q] of
    the search. *)
Definition first_exponent (up den : Z) : Z := Z.log2 (up / den + 1) / 3 + 1.

Definition shortest_decimal (mant exp2 : Z) : Z * Z :=
  let '(x, lo, up, den) := bounds mant exp2 in
  let q0 := first_exponent up den in
  let fuel := Z.to_nat (q0 - Z.min exp2 0 + 1) in
  shortest_loop fuel (Z.even mant) x lo up den q0.

Definition shortest (mant exp2 : Z) : decimalSlice :=
  if mant =? 0 then {| d := []; nd := 0; dp := 0 |}
  else
    let '(c, q) := shortest_decimal mant exp2 in
    let ds := Itoa c in
    {| d := ds; nd := len ds; dp := len ds + q |}.

(** [c * 10^q] rounds to the float [mant * 2^exp2]. *)
Definition rounds_to (mant exp2 c q : Z) : bool :=
  let '(x, lo, up, den) := bounds mant exp2 in
  in_interval (Z.even mant) lo up den q c.

(** [%f]: [-ddddddd.ddddd] *)
Definition fmtF (dst : list byte) (neg : bool) (ds : decimalSlice)
           (prec : Z) : list byte :=
  let dst := if neg then dst ++ ["-"%byte] else dst in
  let dst :=
    if 0 <? dp ds
    then
      let m := Z.min (nd ds) (dp ds) in
      dst ++ firstn (Z.to_nat m) (d ds)
          ++ repeat "0"%byte (Z.to_nat (dp ds - m))
    else dst ++ ["0"%byte] in
  if 0 <? prec
  then
    dst ++ ["."%byte]
        ++ map (fun i : nat =>
                  let j := dp ds + Z.of_nat i in
                  if (0 <=? j) && (j <? nd ds)
                  then nth (Z.to_nat j) (d ds) "0"%byte
                  else "0"%byte)
               (seq 0 (Z.to_nat prec))
  else dst.

Definition AppendFloat (dst : list byte) (bits : Z) : list byte :=
  let neg := negb (Z.shiftr bits 63 =? 0) in
  let exp := Z.land (Z.shiftr bits 52) (2 ^ 11 - 1) in
  let mant := Z.land bits (2 ^ 52 - 1) in
  if exp =? 2 ^ 11 - 1
  then dst ++ bytes_of (if negb (mant =? 0) then "NaN"
                        else if neg then "-Inf" else "+Inf")
  else
    let '(exp, mant) :=
      if exp =? 0 then (exp + 1, mant) else (exp, Z.lor mant (2 ^ 52)) in
    let exp := exp + -1023 in
    let digs := shortest mant (exp - 52) in
    let prec := Z.max (nd digs - dp digs) 0 in
    fmtF dst neg digs prec.

End strconv.

(** ** Reading a decimal back

    The value of a string of decimal digits with an optional sign, to
    state that [Itoa] writes base 10. *)

Definition digit_value (b : byte) : Z := Z.of_N (Byte.to_N b) - 48.

Definition parse_digits (ds : list byte) : Z :=
  fold_left (fun v b => 10 * v + digit_value b) ds 0.

Definition Atoi (s : list byte) : Z :=
  match s with
  | [] => 0
  | b :: ds => if Byte.eqb b "-" then - parse_digits ds else parse_digits s
  end.

(** ** Reading a number back

    What a reader of the log gets from the text of a number: the value
    of lower-case hexadecimal digits, and the value of a decimal with
    an optional sign and an optional fraction, as [fmtF] writes it. *)

Definition hex_value (b : byte) : option Z :=
  let n := Z.of_N (Byte.to_N b) in
  if (48 <=? n) && (n <=? 57) then Some (n - 48)
  else if (97 <=? n) && (n <=? 102) then Some (n - 87)
  else None.

Definition parse_hex (ds : list byte) : option Z :=
  match ds with
  | [] => None
  | _ =>
      fold_left (fun acc b =>
                   match acc, hex_value b with
                   | Some v, Some h => Some (16 * v + h)
                   | _, _ => None
                   end) ds (Some 0)
  end.

Definition is_digit (b : byte) : bool :=
  let n := Z.of_N (Byte.to_N b) in (48 <=? n) && (n <=? 57).

(** The decimal digits at the start of [s], and what follows them. *)
Fixpoint span_digits (s : list byte) : list byte * list byte :=
  match s with
  | [] => ([], [])
  | b :: rest =>
      if is_digit b
      then let '(ds, r) := span_digits rest in (b :: ds, r)
      else ([], s)
  end.

(** The integer [n] made of all the digits and the number [k] of
    digits after the point: the text stands for [n / 10^k].  Anything
    but digits, with one point between digits at most, is refused. *)
Definition parse_unsigned (s : list byte) : option (Z * Z) :=
  let '(ip, rest) := span_digits s in
  match ip, rest with
  | [], _ => None
  | _ :: _, [] => Some (parse_digits ip, 0)
  | _ :: _, b :: fp =>
      if Byte.eqb b "."
      then
        let '(fd, rest') := span_digits fp in
        match fd, rest' with
        | _ :: _, [] => Some (parse_digits (ip ++ fd), len fd)
        | _, _ => None
        end
      else None
  end.

(** The same after an optional minus sign, with the sign. *)
Definition parse_decimal (s : list byte) : option (bool * Z * Z) :=
  match s with
  | [] => None
  | b :: rest =>
      if Byte.eqb b "-"
      then option_map (fun '(n, k) => (true, n, k)) (parse_unsigned rest)
      else option_map (fun '(n, k) => (false, n, k)) (parse_unsigned s)
  end.

(** The decimal [c * 10^q] written without an exponent: the integer
    made of its digits and the number of digits after the point. *)
Definition written (c q : Z) : Z * Z :=
  if 0 <=? q then (c * 10 ^ q, 0) else (c, - q).

(** ** The float64 a decimal stands for

    The value of the positive float64 with the bit pattern [b], in
    units of [2^-1074]: every finite float64 is a multiple of that.  At
    [0x7FF0000000000000] this is [2^1024], the bound from which
    rounding overflows. *)
Definition float_scaled (b : Z) : Z :=
  let e := b / 2 ^ 52 in
  let m := b mod 2 ^ 52 in
  if e =? 0 then m else (2 ^ 52 + m) * 2 ^ (e - 1).

(** Does reading the decimal [c * 10^q] give the positive float64 [b]?
    It does when the decimal is nearer to [b] than to the float64
    before it and to the one after it, whose bit patterns are [b - 1]
    and [b + 1], or half way to one of them with [b] even.  [before]
    and [after] are twice the two half-way points. *)
Definition reparses (b c q : Z) : bool :=
  let before := float_scaled (b - 1) + float_scaled b in
  let after := float_scaled b + float_scaled (b + 1) in
  let '(v, one) :=
    if 0 <=? q
    then (2 * (c * 10 ^ q) * 2 ^ 1074, 1)
    else (2 * c * 2 ^ 1074, 10 ^ (- q)) in
  if Z.even b
  then (before * one <=? v) && (v <=? after * one)
  else (before * one <? v) && (v <? after * one).

(** The exponent and the mantissa [AppendFloat] decodes from the
    exponent field [e] and the fraction field [m] of a finite float64,
    as (exponent, mantissa): the value is [mantissa * 2^exponent]. *)
Definition decoded (e m : Z) : Z * Z :=
  if e =? 0 then (1 - 1075, m) else (e - 1075, m + 2 ^ 52).

(** ** Errors, levels, time *)

(** A Go [error] value, identified by its message ([err.Error()]). *)
Definition error := string.

(** [fmt.Errorf("incomplete write: only wrote %v of %v bytes", n, expected)] *)
Definition incomplete_write (n expectedBytes : Z) : error :=
  string_of_list_byte
    (bytes_of "incomplete write: only wrote " ++ strconv.Itoa n
       ++ bytes_of " of " ++ strconv.Itoa expectedBytes ++ bytes_of " bytes").

(** [Level] and its six constants are declared in a file of the package
    that is not among the sources; the constants are parameters.
    [Level] is an integer type converted to and from [int32] without
    loss. *)
Definition Level := Z.

Class Levels := {
  DebugLevel : Level;
  InfoLevel : Level;
  WarnLevel : Level;
  ErrorLevel : Level;
  PanicLevel : Level;
  FatalLevel : Level
}.

(** Go's [time.Time] with its [AppendFormat] method belongs to the
    standard library; the encoder is parametric in it. *)
Class TimeLib := {
  Time : Type;
  AppendFormat : Time -> list byte -> string -> list byte
}.

Definition RFC3339 : string := "2006-01-02T15:04:05Z07:00".

(** ** The encoder store *)

Definition loc := nat.

Record textEncoder := {
  bytes : list byte;
  timeFmt : string;
  firstNested : bool
}.

Definition with_bytes (b : list byte) (e : textEncoder) : textEncoder :=
  {| bytes := b; timeFmt := timeFmt e; firstNested := firstNested e |}.
Definition with_timeFmt (f : string) (e : textEncoder) : textEncoder :=
  {| bytes := bytes e; timeFmt := f; firstNested := firstNested e |}.
Definition with_firstNested (n : bool) (e : textEncoder) : textEncoder :=
  {| bytes := bytes e; timeFmt := timeFmt e; firstNested := n |}.

Global Instance textEncoder_inhabited : Inhabited textEncoder :=
  populate {| bytes := []; timeFmt := ""; firstNested := false |}.

(** The state a call runs in: the encoder cells ([heap]; the locations
    below [next] have been allocated), the free list of [textPool], and
    the state [outside] the package that the sinks write to. *)
Record World {Ext : Type} := {
  heap : gmap loc textEncoder;
  next : loc;
  pool : list loc;
  outside : Ext
}.
Arguments World : clear implicits.

Definition M (Ext A : Type) : Type := World Ext -> A * World Ext.

Global Instance M_ret {Ext} : MRet (M Ext) := fun A (a : A) w => (a, w).
Global Instance M_bind {Ext} : MBind (M Ext) :=
  fun A B (k : A -> M Ext B) (c : M Ext A) w => let '(a, w') := c w in k a w'.

(** An [io.Writer]: [Write] returns the count and the error, and acts on
    the outside state only. *)
Definition io_Writer (Ext : Type) : Type :=
  list byte -> Ext -> (Z * option error) * Ext.

Record WriteSyncer {Ext : Type} := {
  Write : io_Writer Ext;
  Sync : Ext -> option error * Ext
}.
Arguments WriteSyncer : clear implicits.

Section Encoder.
Context {Ext : Type} {levels : Levels} {timelib : TimeLib}.

Local Abbreviation World := (World Ext).
Local Abbreviation M := (M Ext).

(** The encoder behind a pointer. *)
Definition cell (w : World) (l : loc) : textEncoder := heap w !!! l.

Definition set_cell (l : loc) (e : textEncoder) (w : World) : World :=
  {| heap := <[l := e]> (heap w); next := next w; pool := pool w;
     outside := outside w |}.

Definition set_pool (p : list loc) (w : World) : World :=
  {| heap := heap w; next := next w; pool := p; outside := outside w |}.

Definition set_outside (o : Ext) (w : World) : World :=
  {| heap := heap w; next := next w; pool := pool w; outside := o |}.

Definition load (l : loc) : M textEncoder := fun w => (cell w l, w).

Definition modify (l : loc) (f : textEncoder -> textEncoder) : M unit :=
  fun w => (tt, set_cell l (f (cell w l)) w).

(** [enc.bytes = append(enc.bytes, bs...)] *)
Definition append (enc : loc) (bs : list byte) : M unit :=
  modify enc (fun e => with_bytes (bytes e ++ bs) e).

Definition call_Write (sink : io_Writer Ext) (bs : list byte)
  : M (Z * option error) :=
  fun w => let '(r, o) := sink bs (outside w) in (r, set_outside o w).

Definition call_Sync (ws : WriteSyncer Ext) : M (option error) :=
  fun w => let '(r, o) := Sync ws (outside w) in (r, set_outside o w).

(** *** textPool

    [sync.Pool] hands out any encoder that was put back, or a new one
    when it has none; the free list is taken from its head.  The
    fields of a recycled encoder are whatever they were when it was
    freed.  Which pooled encoder comes out does not matter below: the
    results hold for every content of the free list. *)
Definition textPool_New : textEncoder :=
  {| bytes := []; timeFmt := ""; firstNested := false |}.

Definition textPool_Get : M loc :=
  fun w =>
    match pool w with
    | l :: free => (l, set_pool free w)
    | [] =>
        (next w, {| heap := <[next w := textPool_New]> (heap w);
                    next := S (next w); pool := [];
                    outside := outside w |})
    end.

Definition textPool_Put (l : loc) : M unit :=
  fun w => (tt, set_pool (l :: pool w) w).

(** *** textEncoder *)

Definition truncate (enc : loc) : M unit :=
  modify enc (with_bytes []).

Definition Free (enc : loc) : M unit := textPool_Put enc.

Definition addKey (enc : loc) (key : string) : M unit :=
  e ← load enc;
  let lastIdx := len (bytes e) - 1 in
  (if (0 <=? lastIdx) && negb (firstNested e)
   then append enc [" "%byte]
   else modify enc (with_firstNested false));;
  append enc (bytes_of key);;
  append enc ["="%byte].

Definition AddString (enc : loc) (key val : string) : M unit :=
  addKey enc key;;
  append enc (bytes_of val).

Definition AddBool (enc : loc) (key : string) (val : bool) : M unit :=
  addKey enc key;;
  modify enc (fun e => with_bytes (strconv.AppendBool (bytes e) val) e).

Definition AddInt64 (enc : loc) (key : string) (val : Z) : M unit :=
  addKey enc key;;
  modify enc (fun e => with_bytes (strconv.AppendInt (bytes e) val 10) e).

Definition AddInt (enc : loc) (key : string) (val : Z) : M unit :=
  AddInt64 enc key val.

Definition AddUint64 (enc : loc) (key : string) (val : Z) : M unit :=
  addKey enc key;;
  modify enc (fun e => with_bytes (strconv.AppendUint (bytes e) val 10) e).

Definition AddUint (enc : loc) (key : string) (val : Z) : M unit :=
  AddUint64 enc key val.

Definition AddUintptr (enc : loc) (key : string) (val : Z) : M unit :=
  addKey enc key;;
  append enc (bytes_of "0x");;
  modify enc (fun e => with_bytes (strconv.AppendUint (bytes e) val 16) e).

Definition AddFloat64 (enc : loc) (key : string) (val : Z) : M unit :=
  addKey enc key;;
  modify enc (fun e => with_bytes (strconv.AppendFloat (bytes e) val) e).

(** A [LogMarshaler]: its [MarshalLog] receives the encoder as the
    [KeyValue] sink and may do anything with the state. *)
Definition LogMarshaler : Type := loc -> M (option error).

Definition AddMarshaler (enc : loc) (key : string) (obj : LogMarshaler)
  : M (option error) :=
  addKey enc key;;
  modify enc (with_firstNested true);;
  append enc ["{"%byte];;
  err ← obj enc;
  append enc ["}"%byte];;
  modify enc (with_firstNested false);;
  mret err.

(** [AddObject]: [sprintf_v] is the text [fmt.Sprintf("%+v", obj)]
    gives for the object. *)
Definition AddObject (enc : loc) (key : string) (sprintf_v : string)
  : M (option error) :=
  AddString enc key sprintf_v;;
  mret None.

Definition Clone (enc : loc) : M loc :=
  clone ← textPool_Get;
  truncate clone;;
  e ← load enc;
  append clone (bytes e);;
  e ← load enc;
  modify clone (with_timeFmt (timeFmt e));;
  e ← load enc;
  modify clone (with_firstNested (firstNested e));;
  mret clone.

Definition addLevel (enc final : loc) (lvl : Level) : M unit :=
  append final ["["%byte];;
  (if lvl =? DebugLevel then append final ["D"%byte]
   else if lvl =? InfoLevel then append final ["I"%byte]
   else if lvl =? WarnLevel then append final ["W"%byte]
   else if lvl =? ErrorLevel then append final ["E"%byte]
   else if lvl =? PanicLevel then append final ["P"%byte]
   else if lvl =? FatalLevel then append final ["F"%byte]
   else modify final
          (fun f => with_bytes (strconv.AppendInt (bytes f) lvl 10) f));;
  append final ["]"%byte].

Definition addTime (enc final : loc) (t : Time) : M unit :=
  e ← load enc;
  if String.eqb (timeFmt e) ""
  then mret tt
  else
    append final [" "%byte];;
    e ← load enc;
    modify final (fun f => with_bytes (AppendFormat t (bytes f) (timeFmt e)) f).

Definition addCaller (enc final : loc) (caller : string) (line : Z)
  : M unit :=
  append final (bytes_of " [");;
  append final (bytes_of caller);;
  append final [":"%byte];;
  modify final (fun f => with_bytes (strconv.AppendInt (bytes f) line 10) f);;
  append final ["]"%byte].

Definition addMessage (enc final : loc) (msg : string) : M unit :=
  append final [" "%byte];;
  append final (bytes_of msg).

Definition WriteEntry (enc : loc) (sink : io_Writer Ext)
           (caller : string) (line : Z) (msg : string) (lvl : Level)
           (t : Time) : M (option error) :=
  final ← textPool_Get;
  truncate final;;
  addLevel enc final lvl;;
  addTime enc final t;;
  addCaller enc final caller line;;
  addMessage enc final msg;;
  e ← load enc;
  (if 0 <? len (bytes e)
   then append final [" "%byte];;
        e ← load enc;
        append final (bytes e)
   else mret tt);;
  append final [x0a];;
  f ← load final;
  let expectedBytes := len (bytes f) in
  '(n, err) ← call_Write sink (bytes f);
  Free final;;
  match err with
  | Some e => mret (Some e)
  | None =>
      if negb (n =? expectedBytes)
      then mret (Some (incomplete_write n expectedBytes))
      else mret None
  end.

(** *** Construction options *)

Definition TextOption : Type := loc -> M unit.

Definition TextTimeFormat (layout : string) : TextOption :=
  fun enc => modify enc (with_timeFmt layout).

Definition TextNoTime : TextOption := TextTimeFormat "".

Fixpoint apply_options (options : list TextOption) (enc : loc) : M unit :=
  match options with
  | [] => mret tt
  | opt :: rest => opt enc;; apply_options rest enc
  end.

Definition NewTextEncoder (options : list TextOption) : M loc :=
  enc ← textPool_Get;
  truncate enc;;
  modify enc (with_timeFmt RFC3339);;
  apply_options options enc;;
  mret enc.

(** *** Fields *)

(** Modelled from the spec: the [Field] type, its constructors and
    [addFields] are in a file of the package that is not among the
    sources.  A field is a key with a value of one of eight kinds;
    [addFields] hands the fields to the [KeyValue] sink in the order
    given.  [log] uses no result of [addFields]. *)
Inductive Field :=
| StringField (key val : string)
| BoolField (key : string) (val : bool)
| Int64Field (key : string) (val : Z)
| Uint64Field (key : string) (val : Z)
| UintptrField (key : string) (val : Z)
| Float64Field (key : string) (val : Z)
| MarshalerField (key : string) (obj : LogMarshaler)
| ObjectField (key : string) (sprintf_v : string).

(** Modelled from the spec: the field constructors [String] and [Int]
    (absent from the sources) make a string field and an integer
    field. *)
Definition dlog_String (key val : string) : Field := StringField key val.
Definition dlog_Int (key : string) (val : Z) : Field := Int64Field key val.

(** Modelled from the spec: a field (its code is absent from the
    sources) is added through the operation of the [KeyValue] sink for
    its kind. *)
Definition AddTo (kv : loc) (f : Field) : M unit :=
  match f with
  | StringField key val => AddString kv key val
  | BoolField key val => AddBool kv key val
  | Int64Field key val => AddInt64 kv key val
  | Uint64Field key val => AddUint64 kv key val
  | UintptrField key val => AddUintptr kv key val
  | Float64Field key val => AddFloat64 kv key val
  | MarshalerField key obj => AddMarshaler kv key obj;; mret tt
  | ObjectField key v => AddObject kv key v;; mret tt
  end.

(** Modelled from the spec: [addFields] (absent from the sources) adds
    the fields in the order given. *)
Fixpoint addFields (kv : loc) (fields : list Field) : M unit :=
  match fields with
  | [] => mret tt
  | f :: rest => AddTo kv f;; addFields kv rest
  end.

(** *** Write syncers

    The mutex of [lockedWriteSyncer] serialises concurrent callers; in
    a sequential run the locked syncer does what the wrapped one
    does. *)
Definition newLockedWriteSyncer (ws : WriteSyncer Ext) : WriteSyncer Ext :=
  {| Write := fun bs => Write ws bs; Sync := fun o => Sync ws o |}.

(** *** Meta *)

Record Meta := {
  Development : bool;
  Encoder : loc;
  Output : WriteSyncer Ext;
  ErrorOutput : WriteSyncer Ext;
  lvl : Z
}.

Definition with_lvl (v : Z) (m : Meta) : Meta :=
  {| Development := Development m; Encoder := Encoder m;
     Output := Output m; ErrorOutput := ErrorOutput m; lvl := v |}.
Definition with_Encoder (enc : loc) (m : Meta) : Meta :=
  {| Development := Development m; Encoder := enc;
     Output := Output m; ErrorOutput := ErrorOutput m; lvl := lvl m |}.
Definition with_Output (ws : WriteSyncer Ext) (m : Meta) : Meta :=
  {| Development := Development m; Encoder := Encoder m;
     Output := ws; ErrorOutput := ErrorOutput m; lvl := lvl m |}.

(** [os.Stdout] and [os.Stderr] are given. *)
Definition MakeMeta (stdout stderr : WriteSyncer Ext) (enc : loc) : Meta :=
  {| Development := false;
     Encoder := enc;
     Output := newLockedWriteSyncer stdout;
     ErrorOutput := newLockedWriteSyncer stderr;
     lvl := InfoLevel |}.

(** The methods of [Meta] have value receivers: the body works on [m],
    the method's own copy of the value it was called on.  A body is
    given as a function from that copy to the result and to the copy
    as the body leaves it. *)
Definition MetaMethod (A : Type) : Type := Meta -> A * Meta.

(** [return Level(atomic.LoadInt32(&m.lvl))] *)
Definition Level_body : MetaMethod Level := fun m => (lvl m, m).

(** [atomic.StoreInt32(&m.lvl, int32(lvl))] *)
Definition SetLevel_body (v : Level) : MetaMethod unit :=
  fun m => (tt, with_lvl v m).

(** [m.Encoder = m.Encoder.Clone(); return m] *)
Definition Meta_Clone (m : Meta) : M Meta :=
  enc ← Clone (Encoder m);
  mret (with_Encoder enc m).

(** The variables of type [Meta] of a running program: those below
    [top] are live. *)
Record Vars := { var : nat -> Meta; top : nat }.

(** A call [x.f(...)] of a value-receiver method through the variable
    [x]: the receiver is a new variable holding a copy of [x]; the
    body runs on it; on return the receiver variable is gone. *)
Definition call {A} (x : nat) (f : MetaMethod A) (vs : Vars) : A * Vars :=
  let m := top vs in
  let entry := {| var := <[m := var vs x]> (var vs); top := S m |} in
  let '(a, m') := f (var entry m) in
  let exit := {| var := <[m := m']> (var entry); top := S m |} in
  (a, {| var := var exit; top := m |}).

Definition Meta_Level (x : nat) : Vars -> Level * Vars := call x Level_body.
Definition Meta_SetLevel (x : nat) (v : Level) : Vars -> unit * Vars :=
  call x (SetLevel_body v).

(** *** logger *)

(** [fmt.Fprintln(log.ErrorOutput, msg); log.ErrorOutput.Sync()] *)
Definition internalError (log : Meta) (msg : string) : M unit :=
  call_Write (Write (ErrorOutput log)) (bytes_of msg ++ [x0a]);;
  call_Sync (ErrorOutput log);;
  mret tt.

(** [log] reads the logger through its pointer; [site] is what
    [CallerName1] finds on the stack and [now] what [time.Now]
    returns. *)
Definition logger_log (log : Meta) (site : string * Z) (now : Time)
           (lvl : Level) (msg : string) (fields : list Field) : M unit :=
  if negb (lvl >=? fst (Level_body log))
  then mret tt
  else
    temp ← Clone (Encoder log);
    addFields temp fields;;
    let '(caller, line) := site in
    err ← WriteEntry temp (Write (Output log)) caller line msg lvl now;
    match err with
    | Some e => internalError log e
    | None => mret tt
    end;;
    Free temp.

(** [Init] once the file [f] is open; the background sync of the file
    is not part of the model. *)
Definition Init (stdout stderr f : WriteSyncer Ext) : M Meta :=
  enc ← NewTextEncoder [];
  mret (with_Output (newLockedWriteSyncer f) (MakeMeta stdout stderr enc)).

(** The package-level functions, with the global [dlogger] explicit. *)
Definition Debug (dlogger : Meta) site now msg fields : M unit :=
  logger_log dlogger site now DebugLevel msg fields.
Definition Info (dlogger : Meta) site now msg fields : M unit :=
  logger_log dlogger site now InfoLevel msg fields.
Definition Warn (dlogger : Meta) site now msg fields : M unit :=
  logger_log dlogger site now WarnLevel msg fields.
Definition Error (dlogger : Meta) site now msg fields : M unit :=
  logger_log dlogger site now ErrorLevel msg fields.

End Encoder.

Arguments Meta : clear implicits.
Arguments Vars : clear implicits.
Arguments Field : clear implicits.
Arguments LogMarshaler : clear implicits.
Arguments TextOption : clear implicits.

(** ** A clock for the examples

    The calendar fields of a [time.Time] and the layout interpreter of
    [AppendFormat], for the layout elements [RFC3339] is made of
    (["2006"], ["01"], ["02"], ["15"], ["04"], ["05"], ["Z07:00"]);
    every other byte of a layout is copied.  The general results hold
    for any [TimeLib]; this one serves where a timestamp is
    computed. *)
Module time.

Record Time := {
  year : Z; month : Z; day : Z;
  hour : Z; minute : Z; second : Z;
  offset : Z  (* seconds east of UTC *)
}.

(** [appendInt(b, x, width)]: decimal, zero-padded to [width]. *)
Definition appendInt (b : list byte) (x width : Z) : list byte :=
  let ds := strconv.Itoa (Z.abs x) in
  b ++ (if x <? 0 then ["-"%byte] else [])
    ++ repeat "0"%byte (Z.to_nat (width - len ds)) ++ ds.

Definition zone (b : list byte) (off : Z) : list byte :=
  if off =? 0 then b ++ ["Z"%byte]
  else
    let z := Z.quot off 60 in
    let b := if z <? 0 then b ++ ["-"%byte] else b ++ ["+"%byte] in
    let z := Z.abs z in
    appendInt (appendInt b (z / 60) 2 ++ [":"%byte]) (z mod 60) 2.

Definition skip (n : nat) (s : string) : string :=
  substring n (String.length s - n) s.

Fixpoint format (fuel : nat) (t : Time) (b : list byte) (layout : string)
  : list byte :=
  match fuel, layout with
  | O, _ | _, EmptyString => b
  | S fuel', String c rest =>
      if String.prefix "2006" layout
      then format fuel' t (appendInt b (year t) 4) (skip 4 layout)
      else if String.prefix "01" layout
      then format fuel' t (appendInt b (month t) 2) (skip 2 layout)
      else if String.prefix "02" layout
      then format fuel' t (appendInt b (day t) 2) (skip 2 layout)
      else if String.prefix "15" layout
      then format fuel' t (appendInt b (hour t) 2) (skip 2 layout)
      else if String.prefix "04" layout
      then format fuel' t (appendInt b (minute t) 2) (skip 2 layout)
      else if String.prefix "05" layout
      then format fuel' t (appendInt b (second t) 2) (skip 2 layout)
      else if String.prefix "Z07:00" layout
      then format fuel' t (zone b (offset t)) (skip 6 layout)
      else format fuel' t (b ++ bytes_of (String c "")) rest
  end.

Definition AppendFormat (t : Time) (b : list byte) (layout : string)
  : list byte :=
  format (String.length layout) t b layout.

End time.

Definition go_time : TimeLib :=
  {| Time := time.Time; AppendFormat := time.AppendFormat |}.

(** The numbering of the six levels used in the examples. *)
Definition example_levels : Levels :=
  {| DebugLevel := -1; InfoLevel := 0; WarnLevel := 1; ErrorLevel := 2;
     PanicLevel := 3; FatalLevel := 4 |}.

(** ** Descriptions of states and of results

    Pure descriptions of what the operations make of an encoder, of
    the pool, and of the entry; the lemmas further down relate them to
    the operations. *)

Section Descriptions.
Context {Ext : Type} {levels : Levels} {timelib : TimeLib}.

Local Abbreviation World := (World Ext).
Local Abbreviation M := (M Ext).

(** What [addKey] makes of an encoder. *)
Definition key_cell (key : string) (e : textEncoder) : textEncoder :=
  {| bytes := bytes e
              ++ (if (0 <? len (bytes e)) && negb (firstNested e)
                  then [" "%byte] else [])
              ++ bytes_of key ++ ["="%byte];
     timeFmt := timeFmt e;
     firstNested := false |}.

(** What adding a field with the rendered value [v] makes of an
    encoder. *)
Definition field_cell (key : string) (v : list byte) (e : textEncoder)
  : textEncoder :=
  {| bytes := bytes (key_cell key e) ++ v;
     timeFmt := timeFmt e;
     firstNested := false |}.

(** The encoder as [AddMarshaler] hands it to the callback, and as it
    leaves it once the callback is back. *)
Definition open_cell (key : string) (e : textEncoder) : textEncoder :=
  {| bytes := bytes (key_cell key e) ++ ["{"%byte];
     timeFmt := timeFmt e;
     firstNested := true |}.

Definition close_cell (e : textEncoder) : textEncoder :=
  {| bytes := bytes e ++ ["}"%byte];
     timeFmt := timeFmt e;
     firstNested := false |}.

(** The free list holds distinct allocated locations. *)
Definition wf (w : World) : Prop :=
  NoDup (pool w) /\ Forall (fun l => (l < next w)%nat) (pool w).

(** An encoder in use: allocated and not in the free list. *)
Definition live (w : World) (enc : loc) : Prop :=
  (enc < next w)%nat /\ enc ∉ pool w.

(** The location [textPool.Get] returns in [w], and the state it
    leaves. *)
Definition got (w : World) : loc :=
  match pool w with l :: _ => l | [] => next w end.

Definition after_Get (w : World) : World := snd (textPool_Get w).

(** The level tag between the brackets. *)
Definition level_tag (lvl : Level) : list byte :=
  if lvl =? DebugLevel then ["D"%byte]
  else if lvl =? InfoLevel then ["I"%byte]
  else if lvl =? WarnLevel then ["W"%byte]
  else if lvl =? ErrorLevel then ["E"%byte]
  else if lvl =? PanicLevel then ["P"%byte]
  else if lvl =? FatalLevel then ["F"%byte]
  else strconv.Itoa lvl.

(** The line [WriteEntry] assembles from the encoder [e]. *)
Definition rendered (e : textEncoder) (caller : string) (line : Z)
           (msg : string) (lvl : Level) (t : Time) : list byte :=
  let b := ["["%byte] ++ level_tag lvl ++ ["]"%byte] in
  let b := if String.eqb (timeFmt e) "" then b
           else AppendFormat t (b ++ [" "%byte]) (timeFmt e) in
  let b := b ++ bytes_of " [" ++ bytes_of caller ++ [":"%byte]
             ++ strconv.Itoa line ++ ["]"%byte]
             ++ [" "%byte] ++ bytes_of msg in
  let b := if 0 <? len (bytes e) then b ++ [" "%byte] ++ bytes e else b in
  b ++ [x0a].

(** What [WriteEntry] returns for the count and the error of
    [sink.Write]. *)
Definition write_result (n : Z) (err : option error) (expectedBytes : Z)
  : option error :=
  match err with
  | Some e => Some e
  | None => if n =? expectedBytes then None
            else Some (incomplete_write n expectedBytes)
  end.

(** The state [WriteEntry] leaves when [sink.Write] left [o] outside:
    the final encoder holds the line and is back in the pool. *)
Definition after_WriteEntry (w : World) (ln : list byte) (o : Ext) : World :=
  set_pool (got w :: pool (after_Get w))
    (set_outside o
       (set_cell (got w) (with_bytes ln (cell (after_Get w) (got w)))
                 (after_Get w))).

(** An action that leaves the pool alone and changes no encoder but
    [kv]. *)
Definition touches_only {A} (kv : loc) (c : M A) : Prop :=
  forall w : World,
    next (snd (c w)) = next w
    /\ pool (snd (c w)) = pool w
    /\ forall l, l ≠ kv -> heap (snd (c w)) !! l = heap w !! l.

(** A marshaler that uses nothing but the sink it is given. *)
Definition kv_only (obj : LogMarshaler Ext) : Prop :=
  forall kv, touches_only kv (obj kv).

Definition field_kv_only (f : Field Ext) : Prop :=
  match f with
  | MarshalerField _ obj => kv_only obj
  | _ => True
  end.

(** A later use of an encoder: a field addition, or any change of its
    fields. *)
Inductive step :=
| Add (f : Field Ext)
| Mutate (g : textEncoder -> textEncoder).

Definition step_kv_only (s : step) : Prop :=
  match s with Add f => field_kv_only f | Mutate _ => True end.

Definition run_step (c : loc) (s : step) : M unit :=
  match s with Add f => AddTo c f | Mutate g => modify c g end.

Fixpoint run_steps (c : loc) (ss : list step) : M unit :=
  match ss with
  | [] => mret tt
  | s :: rest => run_step c s;; run_steps c rest
  end.

(** What the logger does outside with the result of [WriteEntry]. *)
Definition report (log : Meta Ext) (err : option error) (o : Ext) : Ext :=
  match err with
  | None => o
  | Some e =>
      snd (Sync (ErrorOutput log)
                (snd (Write (ErrorOutput log) (bytes_of e ++ [x0a]) o)))
  end.

End Descriptions.

Arguments step : clear implicits.

(** ** Sinks and states for the examples *)

(** The outside state of the examples: the calls of [Write] on the log
    file and on the error output, oldest first. *)
Definition Files : Type := list (list byte) * list (list byte).

Definition file_sink : WriteSyncer Files :=
  {| Write := fun bs o => ((len bs, None), (fst o ++ [bs], snd o));
     Sync := fun o => (None, o) |}.

Definition stderr_sink : WriteSyncer Files :=
  {| Write := fun bs o => ((len bs, None), (fst o, snd o ++ [bs]));
     Sync := fun o => (None, o) |}.

(** A sink that drops the last byte of what it is given, and one that
    fails. *)
Definition short_sink : WriteSyncer Files :=
  {| Write := fun bs o => ((len bs - 1, None),
                           (fst o ++ [removelast bs], snd o));
     Sync := fun o => (None, o) |}.

Definition broken_sink : WriteSyncer Files :=
  {| Write := fun bs o => ((0, Some "disk full"%string), o);
     Sync := fun o => (None, o) |}.

(** The state of a program that has not used the pool yet. *)
Definition boot {Ext} (o : Ext) : World Ext :=
  {| heap := ∅; next := 0%nat; pool := []; outside := o |}.

(** A marshaler adding the string fields [a=1] and [b=2], and one that
    adds [a=1] and fails. *)
Definition two_strings {Ext} : LogMarshaler Ext :=
  fun kv => AddString kv "a" "1";; AddString kv "b" "2";; mret None.

Definition failing {Ext} : LogMarshaler Ext :=
  fun kv => AddString kv "a" "1";; mret (Some "boom"%string).

Definition one_and_a_half : Z := 0x3FF8000000000000.

(** 2024-01-01T00:00:00Z *)
Definition new_year_2024 : time.Time :=
  {| time.year := 2024; time.month := 1; time.day := 1;
     time.hour := 0; time.minute := 0; time.second := 0; time.offset := 0 |}.

(** The logger [Init] makes for the log file, and the state it leaves. *)
Definition dlogger0 : Meta Files :=
  fst (Init (levels := example_levels) stderr_sink stderr_sink file_sink
            (boot ([], []))).

Definition started : World Files :=
  snd (Init (levels := example_levels) stderr_sink stderr_sink file_sink
            (boot ([], []))).

(** The state once an encoder has been made with the no-time option. *)
Definition started_no_time : World Files :=
  snd (NewTextEncoder [TextNoTime] (boot ([], []))).

Definition line (s : string) : list byte := bytes_of s ++ [x0a].

(** ** The rest of the package *)

Section Rest.
Context {Ext : Type} {levels : Levels} {timelib : TimeLib}.

Local Abbreviation World := (World Ext).
Local Abbreviation M := (M Ext).

(** *** AddSync

    An [io.Writer] value together with the methods its concrete type
    has besides [Write]: the type switch of [AddSync] asks for them. *)
Record Writer := {
  Writer_Write : io_Writer Ext;
  Writer_Sync : option (Ext -> option error * Ext);
  Writer_Flush : option (Ext -> option error * Ext)
}.

(** [writerWrapper{w}] embeds the interface [io.Writer]: it has [Write]
    and its own [Sync], which returns nil. *)
Definition writerWrapper (w : Writer) : Writer :=
  {| Writer_Write := Writer_Write w;
     Writer_Sync := Some (fun o => (None, o));
     Writer_Flush := None |}.

(** [flusherWrapper{w}] embeds the interface [WriteFlusher]: it has
    [Write], [Flush], and its own [Sync], which returns [f.Flush()]. *)
Definition flusherWrapper (w : Writer) (flush : Ext -> option error * Ext)
  : Writer :=
  {| Writer_Write := Writer_Write w;
     Writer_Sync := Some flush;
     Writer_Flush := Some flush |}.

Definition AddSync (w : Writer) : Writer :=
  match Writer_Sync w with
  | Some _ => w
  | None =>
      match Writer_Flush w with
      | Some flush => flusherWrapper w flush
      | None => writerWrapper w
      end
  end.

(** *** Caller names

    [frame] is what [runtime.Caller(3)] returns: the file and the line,
    or nothing when the stack is not that deep.  [path_Base] is
    [path.Base] of the standard library. *)
Definition CallerName (path_Base : string -> string)
           (frame : option (string * Z)) : string :=
  match frame with
  | None => ""
  | Some (file, line) =>
      String.append "["
        (String.append (path_Base file)
           (String.append ":"
              (String.append (string_of_list_byte (strconv.Itoa line)) "]")))
  end.

Definition CallerName1 (path_Base : string -> string)
           (frame : option (string * Z)) : string * Z :=
  match frame with
  | None => (""%string, 0)
  | Some (file, line) => (path_Base file, line)
  end.

(** *** Calls on the [KeyValue] methods of the encoder

    A value for one of the scalar methods, and a call: a scalar method,
    [AddObject], or [AddMarshaler] with an object whose [MarshalLog]
    makes the calls of [body] on the sink it is given and returns
    [err]. *)
Inductive value :=
| VString (s : string)
| VBool (b : bool)
| VInt (i : Z)
| VInt64 (i : Z)
| VUint (u : Z)
| VUint64 (u : Z)
| VUintptr (u : Z)
| VFloat64 (bits : Z).

#[warnings="-register-all"]
Inductive kv_call :=
| Put (key : string) (v : value)
| PutObject (key : string) (sprintf_v : string)
| PutMarshaler (key : string) (body : list kv_call) (err : option error).

Definition put (enc : loc) (key : string) (v : value) : M unit :=
  match v with
  | VString s => AddString enc key s
  | VBool b => AddBool enc key b
  | VInt i => AddInt enc key i
  | VInt64 i => AddInt64 enc key i
  | VUint u => AddUint enc key u
  | VUint64 u => AddUint64 enc key u
  | VUintptr u => AddUintptr enc key u
  | VFloat64 bits => AddFloat64 enc key bits
  end.

Fixpoint invoke (enc : loc) (c : kv_call) : M (option error) :=
  match c with
  | Put key v => put enc key v;; mret None
  | PutObject key s => AddObject enc key s
  | PutMarshaler key body err =>
      AddMarshaler enc key
        (fun kv =>
           (fix calls (cs : list kv_call) : M unit :=
              match cs with
              | [] => mret tt
              | c' :: rest => invoke kv c';; calls rest
              end) body;;
           mret err)
  end.

Fixpoint invoke_all (enc : loc) (cs : list kv_call) : M unit :=
  match cs with
  | [] => mret tt
  | c :: rest => invoke enc c;; invoke_all enc rest
  end.

End Rest.

Arguments Writer : clear implicits.
Arguments kv_call : clear implicits.

(** Induction on a call and on the calls of its body. *)
Fixpoint kv_call_nested_ind (P : kv_call -> Prop)
         (Hput : forall key v, P (Put key v))
         (Hobject : forall key s, P (PutObject key s))
         (Hmarshaler : forall key body err,
             List.Forall P body -> P (PutMarshaler key body err))
         (c : kv_call) : P c :=
  match c with
  | Put key v => Hput key v
  | PutObject key s => Hobject key s
  | PutMarshaler key body err =>
      Hmarshaler key body err
        ((fix all (cs : list kv_call) : List.Forall P cs :=
            match cs with
            | [] => @List.Forall_nil _ P
            | c' :: rest =>
                @List.Forall_cons _ P c' rest
                  (kv_call_nested_ind P Hput Hobject Hmarshaler c')
                  (all rest)
            end) body)
  end.

(** The text of a value, of a call, and of calls in a row. *)
Definition render_value (v : value) : list byte :=
  match v with
  | VString s => bytes_of s
  | VBool b => bytes_of (if b then "true" else "false")
  | VInt i | VInt64 i => strconv.Itoa i
  | VUint u | VUint64 u => strconv.AppendUint [] u 10
  | VUintptr u => bytes_of "0x" ++ strconv.AppendUint [] u 16
  | VFloat64 bits => strconv.AppendFloat [] bits
  end.

Definition spaced (space : bool) (b : list byte) : list byte :=
  if space then " "%byte :: b else b.

Fixpoint render (c : kv_call) : list byte :=
  match c with
  | Put key v => bytes_of key ++ bytes_of "=" ++ render_value v
  | PutObject key s => bytes_of key ++ bytes_of "=" ++ bytes_of s
  | PutMarshaler key body _ =>
      bytes_of key ++ bytes_of "={"
        ++ (fix all (space : bool) (cs : list kv_call) : list byte :=
              match cs with
              | [] => []
              | c' :: rest => spaced space (render c') ++ all true rest
              end) false body
        ++ bytes_of "}"
  end.

Fixpoint render_all (space : bool) (cs : list kv_call) : list byte :=
  match cs with
  | [] => []
  | c :: rest => spaced space (render c) ++ render_all true rest
  end.

(** What a call returns. *)
Definition returned (c : kv_call) : option error :=
  match c with
  | PutMarshaler _ _ err => err
  | _ => None
  end.

(** Does [addKey] put a space in front of the key? *)
Definition wants_space (e : textEncoder) : bool :=
  (0 <? len (bytes e)) && negb (firstNested e).

(** The encoder after a call: the text of the call is appended, after a
    space when [addKey] wants one; the flag is clear. *)
Definition called (c : kv_call) (e : textEncoder) : textEncoder :=
  {| bytes := bytes e ++ spaced (wants_space e) (render c);
     timeFmt := timeFmt e;
     firstNested := false |}.

Definition called_all (cs : list kv_call) (e : textEncoder) : textEncoder :=
  {| bytes := bytes e ++ render_all (wants_space e) cs;
     timeFmt := timeFmt e;
     firstNested := match cs with [] => firstNested e | _ => false end |}.

(** The part of the entry before the context: level, time, caller and
    message. *)
Definition header {timelib : TimeLib} {levels : Levels} (fmt : string)
           (caller : string) (line : Z) (msg : string) (lvl : Level)
           (t : Time) : list byte :=
  let b := ["["%byte] ++ level_tag lvl ++ ["]"%byte] in
  let b := if String.eqb fmt "" then b
           else AppendFormat t (b ++ [" "%byte]) fmt in
  b ++ bytes_of " [" ++ bytes_of caller ++ [":"%byte]
    ++ strconv.Itoa line ++ ["]"%byte] ++ [" "%byte] ++ bytes_of msg.

(** The six constants are pairwise different (Go refuses a [switch]
    with two equal constant cases). *)
Definition distinct_levels {levels : Levels} : Prop :=
  NoDup [DebugLevel; InfoLevel; WarnLevel; ErrorLevel; PanicLevel; FatalLevel].

(** The level a tag stands for: the letter of a standard level, or the
    decimal of any other. *)
Definition tag_level {levels : Levels} (tag : list byte) : Level :=
  match tag with
  | ["D"%byte] => DebugLevel
  | ["I"%byte] => InfoLevel
  | ["W"%byte] => WarnLevel
  | ["E"%byte] => ErrorLevel
  | ["P"%byte] => PanicLevel
  | ["F"%byte] => FatalLevel
  | _ => Atoi tag
  end.

(** The state with an encoder that got a field and was freed while its
    owner still holds it. *)
Definition freed : World Files :=
  snd (Free 0%nat (snd (AddString 0%nat "k" "v" started))).

(** The state once the encoder of the logger holds the field [k=v]. *)
Definition with_context : World Files :=
  snd (AddString 0%nat "k" "v" started).

(** From there, a clone of that encoder got the field [old=1] and was
    freed: the encoder 1 is in the pool with what it held. *)
Definition recycled : World Files :=
  let w1 := snd (Clone 0%nat with_context) in
  let w2 := snd (AddString 1%nat "old" "1" w1) in
  snd (Free 1%nat w2).

(** The logger of [Init] with the threshold 1, [WarnLevel] in the
    examples. *)
Definition warn_logger : Meta Files := with_lvl 1 dlogger0.

(** The bit pattern of the float64 nearest to pi. *)
Definition pi_bits : Z := 0x400921FB54442D18.

(** ** Reasoning about runs *)

Lemma strconv_formatBits_app (dst : list byte) (u base : Z) (neg : bool) :
  strconv.formatBits dst u base neg = dst ++ strconv.formatBits [] u base neg.
Proof. reflexivity. Qed.

Lemma strconv_AppendInt_app (dst : list byte) (i base : Z) :
  strconv.AppendInt dst i base = dst ++ strconv.AppendInt [] i base.
Proof. reflexivity. Qed.

Lemma strconv_AppendInt_Itoa (dst : list byte) (i : Z) :
  strconv.AppendInt dst i 10 = dst ++ strconv.Itoa i.
Proof. reflexivity. Qed.

Lemma strconv_AppendUint_app (dst : list byte) (u base : Z) :
  strconv.AppendUint dst u base = dst ++ strconv.AppendUint [] u base.
Proof. reflexivity. Qed.

Lemma strconv_AppendFloat_app (dst : list byte) (bits : Z) :
  strconv.AppendFloat dst bits = dst ++ strconv.AppendFloat [] bits.
Proof.
  unfold strconv.AppendFloat.
  destruct (Z.land (Z.shiftr bits 52) (2 ^ 11 - 1) =? 2 ^ 11 - 1);
    [reflexivity|].
  destruct (if Z.land (Z.shiftr bits 52) (2 ^ 11 - 1) =? 0
            then _ else _) as [exp mant].
  unfold strconv.fmtF.
  repeat match goal with
         | |- context [if ?b then _ else _] => destruct b
         end;
    rewrite <- ?app_assoc; reflexivity.
Qed.

(** *** Decimal digits *)

Lemma digit_value_digit (u : Z) :
  0 <= u < 10 ->
  digit_value (strconv.digit u) = u /\ Byte.eqb (strconv.digit u) "-" = false.
Proof.
  intros Hu.
  assert (Hc : u = 0 \/ u = 1 \/ u = 2 \/ u = 3 \/ u = 4 \/ u = 5 \/ u = 6
               \/ u = 7 \/ u = 8 \/ u = 9) by lia.
  repeat (destruct Hc as [-> | Hc]; [split; reflexivity|]).
  subst u. split; reflexivity.
Qed.

Lemma formatBits_loop_decimal (fuel : nat) :
  forall (u : Z) (a : list byte),
    (0 < fuel)%nat -> 0 <= u < 2 ^ Z.of_nat fuel ->
    exists b ds,
      strconv.formatBits_loop fuel 10 u a = (b :: ds) ++ a
      /\ Byte.eqb b "-" = false
      /\ parse_digits (b :: ds) = u.
Proof.
  induction fuel as [|fuel IH]; intros u a Hf Hu; [lia|].
  cbn [strconv.formatBits_loop].
  destruct (10 <=? u) eqn:E.
  - apply Z.leb_le in E.
    assert (Hq : 0 <= u / 10 < 2 ^ Z.of_nat fuel).
    { split; [apply Z.div_pos; lia|].
      apply Z.div_lt_upper_bound; [lia|].
      rewrite Nat2Z.inj_succ, Z.pow_succ_r in Hu by lia. lia. }
    assert (Hfuel : (0 < fuel)%nat).
    { destruct fuel; [cbn in Hu; lia|lia]. }
    destruct (IH (u / 10) (strconv.digit (u mod 10) :: a) Hfuel Hq)
      as (b & ds & Heq & Hb & Hp).
    exists b, (ds ++ [strconv.digit (u mod 10)]). split; [|split].
    + rewrite Heq. cbn. rewrite <- app_assoc. reflexivity.
    + exact Hb.
    + unfold parse_digits in *. rewrite app_comm_cons, fold_left_app, Hp.
      cbn [fold_left].
      destruct (digit_value_digit (u mod 10)) as [-> _].
      { apply Z.mod_pos_bound. lia. }
      pose proof (Z.div_mod u 10). lia.
  - apply Z.leb_gt in E. destruct (digit_value_digit u) as [Hv Hb]; [lia|].
    exists (strconv.digit u), []. repeat split; [exact Hb|].
    unfold parse_digits. cbn [fold_left]. rewrite Hv. lia.
Qed.

Lemma Atoi_Itoa (i : Z) : Atoi (strconv.Itoa i) = i.
Proof.
  unfold strconv.Itoa, strconv.AppendInt, strconv.formatBits.
  assert (Hu : 0 <= Z.abs i < 2 ^ Z.of_nat (S (Z.to_nat (Z.log2 (Z.abs i))))).
  { split; [lia|]. rewrite Nat2Z.inj_succ, Z2Nat.id by apply Z.log2_nonneg.
    destruct (Z.eq_dec (Z.abs i) 0) as [->|Hne]; [reflexivity|].
    apply Z.log2_spec. lia. }
  destruct (formatBits_loop_decimal _ (Z.abs i) [] (Nat.lt_0_succ _) Hu)
    as (b & ds & -> & Hb & Hp).
  rewrite app_nil_r. destruct (i <? 0) eqn:E.
  - apply Z.ltb_lt in E. cbn [app Atoi]. cbn [Byte.eqb]. 
    change (Byte.eqb "-" "-") with true. cbn iota. lia.
  - apply Z.ltb_ge in E. cbn [app Atoi]. rewrite Hb. lia.
Qed.

(** *** The shortest decimal of a float *)

Lemma AppendFloat_samples :
  strconv.AppendFloat [] 0x3FB999999999999A = bytes_of "0.1"
  /\ strconv.AppendFloat [] 0x3FD5555555555555 = bytes_of "0.3333333333333333"
  /\ strconv.AppendFloat [] 0xC00921FB54442D18 = bytes_of "-3.141592653589793"
  /\ strconv.AppendFloat [] 0x4059000000000000 = bytes_of "100"
  /\ strconv.AppendFloat [] 0x3E7AD7F29ABCAF48 = bytes_of "0.0000001"
  /\ strconv.AppendFloat [] 0x4415AF1D78B58C40
     = bytes_of "100000000000000000000"
  /\ strconv.AppendFloat [] 0 = bytes_of "0"
  /\ strconv.AppendFloat [] 0x7FF0000000000000 = bytes_of "+Inf".
Proof. repeat split; vm_compute; reflexivity. Qed.

Section ShortestDecimal.
Import strconv.

Lemma bounds_facts (mant exp2 x lo up den : Z) :
  0 < mant -> bounds mant exp2 = (x, lo, up, den) ->
  0 < den /\ 0 < lo /\ lo < x /\ x < up.
Proof.
  intros Hm. unfold bounds.
  destruct (0 <=? exp2 - 2) eqn:E;
    destruct ((2 ^ 52 <? mant) || (exp2 =? -1074));
    intros [= <- <- <- <-].
  all: try (apply Z.leb_le in E;
            assert (0 < 2 ^ (exp2 - 2)) by (apply Z.pow_pos_nonneg; lia); nia).
  all: apply Z.leb_gt in E;
    assert (0 < 2 ^ (- (exp2 - 2))) by (apply Z.pow_pos_nonneg; lia); lia.
Qed.

Lemma cross_pos (den q A B : Z) :
  0 < den -> cross den q = (A, B) -> 0 < A /\ 0 < B.
Proof.
  intros Hd. unfold cross. destruct (0 <=? q) eqn:E; intros [= <- <-].
  - apply Z.leb_le in E.
    assert (0 < 10 ^ q) by (apply Z.pow_pos_nonneg; lia). nia.
  - apply Z.leb_gt in E.
    assert (0 < 10 ^ (- q)) by (apply Z.pow_pos_nonneg; lia). lia.
Qed.

Lemma in_interval_true (inclusive : bool) (lo up den q c A B : Z) :
  cross den q = (A, B) ->
  in_interval inclusive lo up den q c = true <->
  if inclusive then lo * A <= c * B <= up * A else lo * A < c * B < up * A.
Proof.
  intros HAB. unfold in_interval. rewrite HAB.
  destruct inclusive; rewrite andb_true_iff;
    rewrite ?Z.leb_le, ?Z.ltb_lt; tauto.
Qed.

Lemma floor_at_spec (x den q A B : Z) :
  0 < den -> cross den q = (A, B) ->
  floor_at x den q * B <= x * A < (floor_at x den q + 1) * B.
Proof.
  intros Hd HAB. destruct (cross_pos _ _ _ _ Hd HAB) as [HA HB].
  unfold floor_at. rewrite HAB.
  pose proof (Z.div_mod (x * A) B ltac:(lia)).
  pose proof (Z.mod_pos_bound (x * A) B HB). nia.
Qed.

(** At the exponent [min exp2 0] the value is a multiple of [10^q]. *)
Lemma exact_at_min (mant exp2 x lo up den A B : Z) :
  bounds mant exp2 = (x, lo, up, den) ->
  cross den (Z.min exp2 0) = (A, B) ->
  exists c, x * A = c * B.
Proof.
  unfold bounds, cross.
  destruct (0 <=? exp2 - 2) eqn:E.
  - apply Z.leb_le in E. intros [= <- _ _ <-].
    replace (Z.min exp2 0) with 0 by lia. cbn. intros [= <- <-].
    eexists. reflexivity.
  - apply Z.leb_gt in E. intros [= <- _ _ <-].
    destruct (0 <=? Z.min exp2 0) eqn:E'.
    + apply Z.leb_le in E'. replace (Z.min exp2 0) with 0 by lia.
      intros [= <- <-].
      assert (Hc : exp2 = 0 \/ exp2 = 1) by lia.
      destruct Hc as [-> | ->].
      * exists mant. cbn. lia.
      * exists (2 * mant). cbn. lia.
    + apply Z.leb_gt in E'. replace (Z.min exp2 0) with exp2 by lia.
      intros [= <- <-].
      exists (mant * 5 ^ (- exp2)).
      replace (- (exp2 - 2)) with (2 + - exp2) by lia.
      rewrite Z.pow_add_r by lia.
      change 10 with (2 * 5). rewrite Z.pow_mul_l. cbn. lia.
Qed.

Lemma shortest_loop_spec (inclusive : bool) (x lo up den qmin : Z) :
  0 < den -> lo < x < up ->
  (forall A B, cross den qmin = (A, B) -> exists c, x * A = c * B) ->
  forall (fuel : nat) (q : Z),
    qmin <= q -> q - Z.of_nat fuel <= qmin ->
    let r := shortest_loop fuel inclusive x lo up den q in
    snd r <= q
    /\ in_interval inclusive lo up den (snd r) (fst r) = true
    /\ forall q', snd r < q' <= q ->
         in_interval inclusive lo up den q' (floor_at x den q') = false
         /\ in_interval inclusive lo up den q' (floor_at x den q' + 1) = false.
Proof.
  intros Hden Hx Hexact fuel.
  induction fuel as [|fuel IH]; intros q Hq Hfuel; cbn [shortest_loop].
  all: destruct (in_interval inclusive lo up den q (floor_at x den q)) eqn:Ed;
    destruct (in_interval inclusive lo up den q (floor_at x den q + 1)) eqn:Eu;
    cbn [andb fst snd].
  all: try (split; [lia|split; [assumption|intros; lia]]).
  - (* both near: the nearest is one of the two *)
    split; [lia|]. split; [|intros; lia].
    unfold nearest. destruct (cross den q) as [A B].
    repeat match goal with |- context [if ?b then _ else _] => destruct b end;
      assumption.
  - (* no fuel left: then q = qmin and rounding down is exact *)
    exfalso. assert (q = qmin) by lia. subst q.
    destruct (cross den qmin) as [A B] eqn:HAB.
    destruct (Hexact A B eq_refl) as [c Hc].
    destruct (cross_pos _ _ _ _ Hden HAB) as [HA HB].
    pose proof (floor_at_spec x den qmin A B Hden HAB) as Hfl.
    assert (Hin : in_interval inclusive lo up den qmin (floor_at x den qmin)
                    = true).
    { apply (in_interval_true _ _ _ _ _ _ A B HAB).
      assert (floor_at x den qmin = c) by nia.
      destruct inclusive; nia. }
    congruence.
  - split; [lia|]. split; [|intros; lia].
    unfold nearest. destruct (cross den q) as [A B].
    repeat match goal with |- context [if ?b then _ else _] => destruct b end;
      assumption.
  - destruct (Z.eq_dec q qmin) as [->|Hne].
    + exfalso.
      destruct (cross den qmin) as [A B] eqn:HAB.
      destruct (Hexact A B eq_refl) as [c Hc].
      destruct (cross_pos _ _ _ _ Hden HAB) as [HA HB].
      pose proof (floor_at_spec x den qmin A B Hden HAB) as Hfl.
      assert (Hin : in_interval inclusive lo up den qmin (floor_at x den qmin)
                    = true).
      { apply (in_interval_true _ _ _ _ _ _ A B HAB).
        assert (floor_at x den qmin = c) by nia.
        destruct inclusive; nia. }
      congruence.
    + destruct (IH (q - 1) ltac:(lia) ltac:(lia)) as (Hle & Hin & Hmin).
      split; [lia|]. split; [assumption|].
      intros q' Hq'. destruct (Z.eq_dec q' q) as [->|Hne'].
      * split; assumption.
      * apply Hmin. lia.
Qed.

Lemma no_multiple_inside (inclusive : bool) (x lo up den q : Z) :
  0 < den -> lo < x < up ->
  in_interval inclusive lo up den q (floor_at x den q) = false ->
  in_interval inclusive lo up den q (floor_at x den q + 1) = false ->
  forall c, in_interval inclusive lo up den q c = false.
Proof.
  intros Hden Hx Hd Hu c.
  destruct (in_interval inclusive lo up den q c) eqn:Hc; [exfalso|reflexivity].
  destruct (cross den q) as [A B] eqn:HAB.
  destruct (cross_pos _ _ _ _ Hden HAB) as [HA HB].
  pose proof (floor_at_spec x den q A B Hden HAB) as Hfl.
  apply (in_interval_true _ _ _ _ _ _ A B HAB) in Hc.
  destruct (Z_le_gt_dec c (floor_at x den q)) as [Hle|Hgt].
  - assert (Hin : in_interval inclusive lo up den q (floor_at x den q) = true).
    { apply (in_interval_true _ _ _ _ _ _ A B HAB). destruct inclusive; nia. }
    congruence.
  - assert (Hin : in_interval inclusive lo up den q (floor_at x den q + 1)
                  = true).
    { apply (in_interval_true _ _ _ _ _ _ A B HAB). destruct inclusive; nia. }
    congruence.
Qed.

Lemma first_exponent_bound (up den : Z) :
  0 < den -> 0 < up ->
  1 <= first_exponent up den /\ up < den * 10 ^ first_exponent up den.
Proof.
  intros Hden Hup. unfold first_exponent.
  set (U := up / den). set (L := Z.log2 (U + 1)).
  assert (HU : 0 <= U) by (apply Z.div_pos; lia).
  assert (HL : 0 <= L) by apply Z.log2_nonneg.
  assert (Hq : 0 <= L / 3) by (apply Z.div_pos; lia).
  split; [lia|].
  assert (Hlog : U + 1 < 2 ^ (L + 1)).
  { apply Z.log2_spec. lia. }
  assert (H3 : L + 1 <= 3 * (L / 3 + 1)).
  { pose proof (Z.div_mod L 3 ltac:(lia)).
    pose proof (Z.mod_pos_bound L 3 ltac:(lia)). lia. }
  assert (Hpow : 2 ^ (L + 1) <= 10 ^ (L / 3 + 1)).
  { transitivity (2 ^ (3 * (L / 3 + 1))).
    - apply Z.pow_le_mono_r; lia.
    - rewrite Z.pow_mul_r by lia. apply Z.pow_le_mono_l. cbn. lia. }
  assert (Hdiv : up < den * (U + 1)).
  { pose proof (Z.div_mod up den ltac:(lia)).
    pose proof (Z.mod_pos_bound up den Hden). fold U in H. nia. }
  nia.
Qed.

Lemma beyond_first_exponent (inclusive : bool) (lo up den q c : Z) :
  0 < den -> 0 < lo -> lo < up -> first_exponent up den < q ->
  in_interval inclusive lo up den q c = false.
Proof.
  intros Hden Hlo Hup Hq.
  destruct (first_exponent_bound up den Hden ltac:(lia)) as [H1 Hb].
  destruct (in_interval inclusive lo up den q c) eqn:Hc; [exfalso|reflexivity].
  assert (HAB : cross den q = (1, den * 10 ^ q)).
  { unfold cross. replace (0 <=? q) with true by lia. reflexivity. }
  apply (in_interval_true _ _ _ _ _ _ _ _ HAB) in Hc.
  assert (Hmono : 10 ^ first_exponent up den <= 10 ^ q)
    by (apply Z.pow_le_mono_r; lia).
  assert (Hpos : 0 < 10 ^ q) by (apply Z.pow_pos_nonneg; lia).
  assert (Hc1 : 1 <= c) by (destruct inclusive; nia).
  assert (H2 : den * 10 ^ first_exponent up den <= den * 10 ^ q) by nia.
  assert (H3 : den * 10 ^ q <= c * (den * 10 ^ q)) by nia.
  destruct inclusive; lia.
Qed.

(** The decimal the search returns rounds to the float, and no decimal
    with a larger exponent (fewer digits) does. *)
Lemma shortest_decimal_spec (mant exp2 : Z) :
  0 < mant ->
  rounds_to mant exp2 (fst (shortest_decimal mant exp2))
            (snd (shortest_decimal mant exp2)) = true
  /\ forall c q, snd (shortest_decimal mant exp2) < q ->
                 rounds_to mant exp2 c q = false.
Proof.
  intros Hm. unfold rounds_to, shortest_decimal.
  destruct (bounds mant exp2) as [[[x lo] up] den] eqn:Hb.
  destruct (bounds_facts _ _ _ _ _ _ Hm Hb) as (Hden & Hlo & Hlx & Hxu).
  destruct (first_exponent_bound up den Hden ltac:(lia)) as [Hq0 _].
  pose proof (shortest_loop_spec (Z.even mant) x lo up den (Z.min exp2 0)
                Hden (conj Hlx Hxu)
                (fun A B HAB => exact_at_min _ _ _ _ _ _ _ _ Hb HAB)
                (Z.to_nat (first_exponent up den - Z.min exp2 0 + 1))
                (first_exponent up den) ltac:(lia) ltac:(lia))
    as (Hle & Hin & Hmin).
  split; [exact Hin|].
  intros c q Hq.
  destruct (Z_le_gt_dec q (first_exponent up den)) as [Hq'|Hq'].
  - destruct (Hmin q ltac:(lia)) as [Hd Hu].
    now apply (no_multiple_inside _ x).
  - apply beyond_first_exponent; lia.
Qed.

End ShortestDecimal.

(** *** Reading hexadecimal digits back *)

Lemma hex_value_digit (u : Z) :
  0 <= u < 16 -> hex_value (strconv.digit u) = Some u.
Proof.
  intros Hu.
  assert (Hc : u = 0 \/ u = 1 \/ u = 2 \/ u = 3 \/ u = 4 \/ u = 5 \/ u = 6
               \/ u = 7 \/ u = 8 \/ u = 9 \/ u = 10 \/ u = 11 \/ u = 12
               \/ u = 13 \/ u = 14 \/ u = 15) by lia.
  repeat (destruct Hc as [-> | Hc]; [reflexivity|]).
  subst u. reflexivity.
Qed.

Lemma formatBits_loop_hex (fuel : nat) :
  forall (u : Z) (a : list byte),
    (0 < fuel)%nat -> 0 <= u < 2 ^ Z.of_nat fuel ->
    exists b ds,
      strconv.formatBits_loop fuel 16 u a = (b :: ds) ++ a
      /\ parse_hex (b :: ds) = Some u.
Proof.
  induction fuel as [|fuel IH]; intros u a Hf Hu; [lia|].
  cbn [strconv.formatBits_loop].
  destruct (16 <=? u) eqn:E.
  - apply Z.leb_le in E.
    assert (Hq : 0 <= u / 16 < 2 ^ Z.of_nat fuel).
    { split; [apply Z.div_pos; lia|].
      apply Z.div_lt_upper_bound; [lia|].
      rewrite Nat2Z.inj_succ, Z.pow_succ_r in Hu by lia. lia. }
    assert (Hfuel : (0 < fuel)%nat).
    { destruct fuel; [cbn in Hu; lia|lia]. }
    destruct (IH (u / 16) (strconv.digit (u mod 16) :: a) Hfuel Hq)
      as (b & ds & Heq & Hp).
    exists b, (ds ++ [strconv.digit (u mod 16)]). split.
    + rewrite Heq. cbn. rewrite <- app_assoc. reflexivity.
    + unfold parse_hex in *. rewrite app_comm_cons, fold_left_app, Hp.
      cbn [fold_left].
      rewrite hex_value_digit by (apply Z.mod_pos_bound; lia).
      f_equal. pose proof (Z.div_mod u 16). lia.
  - apply Z.leb_gt in E.
    exists (strconv.digit u), []. split; [reflexivity|].
    unfold parse_hex. cbn [fold_left].
    rewrite hex_value_digit by lia. f_equal; lia.
Qed.

Lemma fuel_covers (u : Z) :
  0 <= u -> 0 <= u < 2 ^ Z.of_nat (S (Z.to_nat (Z.log2 u))).
Proof.
  intros Hu. split; [lia|].
  rewrite Nat2Z.inj_succ, Z2Nat.id by apply Z.log2_nonneg.
  destruct (Z.eq_dec u 0) as [->|Hne]; [reflexivity|].
  apply Z.log2_spec. lia.
Qed.

Lemma parse_hex_AppendUint (u : Z) :
  0 <= u -> parse_hex (strconv.AppendUint [] u 16) = Some u.
Proof.
  intros Hu. unfold strconv.AppendUint, strconv.formatBits.
  destruct (formatBits_loop_hex _ u [] (Nat.lt_0_succ _) (fuel_covers u Hu))
    as (b & ds & -> & Hp).
  cbn [app]. rewrite app_nil_r. exact Hp.
Qed.

(** *** Reading a decimal back *)

Lemma is_digit_digit (u : Z) :
  0 <= u < 10 -> is_digit (strconv.digit u) = true.
Proof.
  intros Hu.
  assert (Hc : u = 0 \/ u = 1 \/ u = 2 \/ u = 3 \/ u = 4 \/ u = 5 \/ u = 6
               \/ u = 7 \/ u = 8 \/ u = 9) by lia.
  repeat (destruct Hc as [-> | Hc]; [reflexivity|]).
  subst u. reflexivity.
Qed.

Lemma formatBits_loop_digits (fuel : nat) :
  forall (u : Z) (a : list byte),
    0 <= u ->
    List.Forall (fun b => is_digit b = true) a ->
    List.Forall (fun b => is_digit b = true)
                (strconv.formatBits_loop fuel 10 u a).
Proof.
  induction fuel as [|fuel IH]; intros u a Hu Ha; [exact Ha|].
  cbn [strconv.formatBits_loop].
  destruct (10 <=? u) eqn:E.
  - apply IH; [apply Z.div_pos; lia|].
    constructor; [|exact Ha].
    apply is_digit_digit. apply Z.mod_pos_bound. lia.
  - apply Z.leb_gt in E. constructor; [|exact Ha].
    apply is_digit_digit. lia.
Qed.

(** The digits of a natural number. *)
Lemma Itoa_digits (c : Z) :
  0 <= c ->
  List.Forall (fun b => is_digit b = true) (strconv.Itoa c)
  /\ 0 < len (strconv.Itoa c)
  /\ parse_digits (strconv.Itoa c) = c.
Proof.
  intros Hc. unfold strconv.Itoa, strconv.AppendInt, strconv.formatBits.
  replace (c <? 0) with false by lia. rewrite Z.abs_eq by lia.
  cbn [app]. split; [|split].
  - apply formatBits_loop_digits; [lia|constructor].
  - destruct (formatBits_loop_decimal _ c [] (Nat.lt_0_succ _)
                (fuel_covers c Hc)) as (b & ds & -> & _).
    unfold len. cbn [app length]. lia.
  - destruct (formatBits_loop_decimal _ c [] (Nat.lt_0_succ _)
                (fuel_covers c Hc)) as (b & ds & -> & _ & Hp).
    rewrite app_nil_r. exact Hp.
Qed.

Lemma span_digits_app (ds rest : list byte) :
  List.Forall (fun b => is_digit b = true) ds ->
  match rest with [] => True | b :: _ => is_digit b = false end ->
  span_digits (ds ++ rest) = (ds, rest).
Proof.
  intros Hds Hrest. induction Hds as [|b ds Hb _ IH]; cbn [app span_digits].
  - destruct rest as [|b rest]; [reflexivity|]. cbn [span_digits].
    now rewrite Hrest.
  - now rewrite Hb, IH.
Qed.

Lemma parse_digits_app (a b : list byte) :
  parse_digits (a ++ b) = parse_digits a * 10 ^ len b + parse_digits b.
Proof.
  unfold parse_digits. rewrite fold_left_app.
  generalize (fold_left (fun v b0 => 10 * v + digit_value b0) a 0).
  induction b as [|x b IH]; intros v.
  - unfold len. cbn [fold_left length]. change (10 ^ Z.of_nat 0) with 1. lia.
  - cbn [fold_left]. rewrite IH.
    rewrite (IH (10 * 0 + digit_value x)).
    unfold len. cbn [length]. rewrite Nat2Z.inj_succ, Z.pow_succ_r by lia.
    ring.
Qed.

Lemma parse_digits_zeros (n : nat) : parse_digits (repeat "0"%byte n) = 0.
Proof.
  induction n as [|n IH]; [reflexivity|].
  change (repeat "0"%byte (S n)) with (["0"%byte] ++ repeat "0"%byte n).
  rewrite parse_digits_app, IH. reflexivity.
Qed.

Lemma Forall_digit_zeros (n : nat) :
  List.Forall (fun b => is_digit b = true) (repeat "0"%byte n).
Proof. induction n; constructor; [reflexivity|assumption]. Qed.

Lemma digit_not_sign (b : byte) :
  is_digit b = true -> Byte.eqb b "-" = false /\ Byte.eqb b "." = false.
Proof. destruct b; try discriminate; intros _; split; reflexivity. Qed.

(** A sign, digits, and a point with more digits if there are any:
    what [parse_decimal] reads. *)
Lemma parse_decimal_layout (neg : bool) (ip fd : list byte) :
  List.Forall (fun b => is_digit b = true) ip -> 0 < len ip ->
  List.Forall (fun b => is_digit b = true) fd ->
  parse_decimal ((if neg then ["-"%byte] else [])
                   ++ ip ++ match fd with [] => [] | _ => "."%byte :: fd end)
  = Some (neg, parse_digits (ip ++ fd), len fd).
Proof.
  intros Hip Hlen Hfd.
  destruct ip as [|b ip]; [unfold len in Hlen; cbn in Hlen; lia|].
  pose proof (Forall_inv Hip) as Hb.
  destruct (digit_not_sign b Hb) as [Hsign _].
  assert (Hbody : parse_unsigned
                    ((b :: ip) ++ match fd with
                                  | [] => []
                                  | _ => "."%byte :: fd
                                  end)
                  = Some (parse_digits ((b :: ip) ++ fd), len fd)).
  { unfold parse_unsigned. destruct fd as [|f fd].
    - rewrite span_digits_app by (assumption || exact I).
      rewrite app_nil_r. reflexivity.
    - rewrite span_digits_app by (assumption || reflexivity).
      change (Byte.eqb "." ".") with true. cbv iota.
      rewrite <- (app_nil_r (f :: fd)) at 1.
      rewrite span_digits_app by (assumption || exact I).
      reflexivity. }
  unfold parse_decimal. destruct neg.
  - cbn [app]. change (Byte.eqb "-" "-") with true. cbv iota.
    change (b :: ip ++ match fd with [] => [] | _ => "."%byte :: fd end)
      with ((b :: ip) ++ match fd with [] => [] | _ => "."%byte :: fd end).
    rewrite Hbody. reflexivity.
  - cbn [app]. rewrite Hsign.
    change (b :: ip ++ match fd with [] => [] | _ => "."%byte :: fd end)
      with ((b :: ip) ++ match fd with [] => [] | _ => "."%byte :: fd end).
    rewrite Hbody. reflexivity.
Qed.

Lemma map_seq_ext {A} (f : nat -> A) (l : list A) (d : A) (n : nat) :
  length l = n ->
  (forall i, (i < n)%nat -> f i = nth i l d) ->
  map f (seq 0 n) = l.
Proof.
  intros Hn Hf. apply (nth_ext _ _ (f 0%nat) d).
  - now rewrite length_map, length_seq.
  - intros i Hi. rewrite length_map, length_seq in Hi.
    rewrite (map_nth f (seq 0 n) 0%nat i), seq_nth by assumption.
    now apply Hf.
Qed.

(** The digits [fmtF] puts after the point: zeros down to the first
    digit, then the digits from position [dp]. *)
Lemma fmtF_fraction (ds : list byte) (dp : Z) :
  dp <= len ds ->
  map (fun i : nat =>
         let j := dp + Z.of_nat i in
         if (0 <=? j) && (j <? len ds)
         then nth (Z.to_nat j) ds "0"%byte
         else "0"%byte)
      (seq 0 (Z.to_nat (len ds - dp)))
  = repeat "0"%byte (Z.to_nat (- dp)) ++ skipn (Z.to_nat dp) ds.
Proof.
  intros Hdp. unfold len in *. apply (map_seq_ext _ _ "0"%byte).
  - rewrite length_app, repeat_length, length_skipn. lia.
  - intros i Hi. cbv zeta.
    destruct (Nat.lt_ge_cases i (Z.to_nat (- dp))) as [Hlt|Hge].
    + rewrite app_nth1 by (rewrite repeat_length; lia).
      rewrite nth_repeat.
      replace (0 <=? dp + Z.of_nat i) with false by lia. reflexivity.
    + rewrite app_nth2 by (rewrite repeat_length; lia).
      rewrite repeat_length, nth_skipn.
      replace (0 <=? dp + Z.of_nat i) with true by lia.
      replace (dp + Z.of_nat i <? Z.of_nat (length ds)) with true by lia.
      cbn [andb]. f_equal. lia.
Qed.

(** [fmtF] lays the digits of [c] at the exponent [q] out as the
    decimal [c * 10^q]. *)
Lemma parse_decimal_fmtF (neg : bool) (c q : Z) :
  0 <= c ->
  let ds := strconv.Itoa c in
  let digs := {| strconv.d := ds; strconv.nd := len ds;
                 strconv.dp := len ds + q |} in
  parse_decimal
    (strconv.fmtF [] neg digs
                  (Z.max (strconv.nd digs - strconv.dp digs) 0))
  = Some (neg, fst (written c q), snd (written c q)).
Proof.
  intros Hc ds digs. subst digs.
  destruct (Itoa_digits c Hc) as (Hds & Hlen & Hval). fold ds in Hds, Hlen, Hval.
  unfold strconv.fmtF, written.
  cbn [strconv.d strconv.nd strconv.dp].
  replace (len ds - (len ds + q)) with (- q) by lia.
  assert (Hsign : (if neg then [] ++ ["-"%byte] else [])
                  = (if neg then ["-"%byte] else []) ++ [])
    by (destruct neg; reflexivity).
  destruct (0 <=? q) eqn:Eq.
  - apply Z.leb_le in Eq.
    replace (0 <? len ds + q) with true by lia.
    rewrite Z.min_l, Z.max_r by lia. change (0 <? 0) with false. cbv iota.
    replace (len ds + q - len ds) with q by lia.
    unfold len at 1. rewrite Nat2Z.id, firstn_all.
    set (ip := ds ++ repeat "0"%byte (Z.to_nat q)).
    assert (Hip : List.Forall (fun b => is_digit b = true) ip).
    { apply Forall_app. split; [exact Hds|apply Forall_digit_zeros]. }
    assert (Hlip : 0 < len ip).
    { unfold ip, len in *. rewrite length_app. lia. }
    assert (Hall : parse_digits ip = c * 10 ^ q).
    { unfold ip. rewrite parse_digits_app, parse_digits_zeros, Hval.
      unfold len. rewrite repeat_length, Z2Nat.id by lia. lia. }
    pose proof (parse_decimal_layout neg ip [] Hip Hlip (List.Forall_nil _))
      as Hp.
    rewrite !app_nil_r, Hall in Hp. cbn [fst snd].
    destruct neg; cbn [app] in *; exact Hp.
  - apply Z.leb_gt in Eq. rewrite Z.max_l by lia.
    replace (0 <? - q) with true by lia.
    pose proof (fmtF_fraction ds (len ds + q) ltac:(lia)) as Hfrac.
    replace (len ds - (len ds + q)) with (- q) in Hfrac by lia.
    cbv zeta in Hfrac. rewrite Hfrac. clear Hfrac.
    set (fd := repeat "0"%byte (Z.to_nat (- (len ds + q)))
                 ++ skipn (Z.to_nat (len ds + q)) ds).
    assert (Hfd : List.Forall (fun b => is_digit b = true) fd).
    { apply Forall_app. split; [apply Forall_digit_zeros|].
      now apply Forall_drop. }
    assert (Hlfd : len fd = - q).
    { unfold fd, len in *. rewrite length_app, repeat_length, length_skipn.
      lia. }
    assert (Hne : fd <> []).
    { intros E. rewrite E in Hlfd. unfold len in Hlfd. cbn in Hlfd. lia. }
    cbn [fst snd].
    destruct (0 <? len ds + q) eqn:Edp.
    + apply Z.ltb_lt in Edp. rewrite Z.min_r by lia.
      replace (len ds + q - (len ds + q)) with 0 by lia.
      change (repeat "0"%byte (Z.to_nat 0)) with (@nil byte).
      rewrite app_nil_r.
      set (ip := firstn (Z.to_nat (len ds + q)) ds).
      assert (Hip : List.Forall (fun b => is_digit b = true) ip)
        by now apply Forall_take.
      assert (Hlip : 0 < len ip).
      { unfold ip, len in *. rewrite length_firstn. lia. }
      assert (Hall : parse_digits (ip ++ fd) = c).
      { unfold ip, fd.
        replace (Z.to_nat (- (len ds + q))) with 0%nat by lia.
        cbn [repeat app]. now rewrite firstn_skipn. }
      pose proof (parse_decimal_layout neg ip fd Hip Hlip Hfd) as Hp.
      rewrite Hall, Hlfd in Hp.
      destruct fd as [|f fd']; [contradiction|].
      destruct neg; cbn [app] in *; rewrite <- ?app_assoc; exact Hp.
    + apply Z.ltb_ge in Edp.
      assert (Hall : parse_digits (["0"%byte] ++ fd) = c).
      { unfold fd. replace (Z.to_nat (len ds + q)) with 0%nat by lia.
        change (skipn 0 ds) with ds.
        rewrite app_assoc.
        change (["0"%byte] ++ repeat "0"%byte (Z.to_nat (- (len ds + q))))
          with (repeat "0"%byte (S (Z.to_nat (- (len ds + q))))).
        rewrite parse_digits_app, parse_digits_zeros, Hval. lia. }
      pose proof (parse_decimal_layout neg ["0"%byte] fd
                    ltac:(repeat constructor) ltac:(reflexivity) Hfd) as Hp.
      rewrite Hall, Hlfd in Hp.
      destruct fd as [|f fd']; [contradiction|].
      destruct neg; cbn [app] in *; exact Hp.
Qed.

(** *** The rounding interval and the neighbouring floats *)

Lemma float_scaled_at (e m : Z) :
  0 <= e -> 0 <= m < 2 ^ 52 ->
  float_scaled (e * 2 ^ 52 + m)
  = if e =? 0 then m else (2 ^ 52 + m) * 2 ^ (e - 1).
Proof.
  intros He Hm. unfold float_scaled.
  assert (Hd : (e * 2 ^ 52 + m) / 2 ^ 52 = e).
  { symmetry. apply (Z.div_unique _ _ e m); [left; exact Hm|ring]. }
  assert (Hr : (e * 2 ^ 52 + m) mod 2 ^ 52 = m).
  { symmetry. apply (Z.mod_unique _ _ e m); [left; exact Hm|ring]. }
  rewrite Hd, Hr. reflexivity.
Qed.

(** Twice the two half-way points of the float with the fields [e] and
    [m], against the bounds of the rounding interval. *)
Lemma half_way_points (e m : Z) :
  0 <= e -> 0 <= m < 2 ^ 52 -> 0 < e * 2 ^ 52 + m ->
  let b := e * 2 ^ 52 + m in
  let exp2 := fst (decoded e m) in
  let mant := snd (decoded e m) in
  let P := 2 ^ (exp2 + 1074) in
  let lower := if (2 ^ 52 <? mant) || (exp2 =? -1074)
               then 4 * mant - 2 else 4 * mant - 1 in
  0 < mant
  /\ 2 * (float_scaled (b - 1) + float_scaled b) = lower * P
  /\ 2 * (float_scaled b + float_scaled (b + 1)) = (4 * mant + 2) * P.
Proof.
  intros He Hm Hb b exp2 mant P lower.
  assert (Hhere : float_scaled b = mant * P).
  { unfold b, mant, P, exp2, decoded. rewrite float_scaled_at by assumption.
    destruct (e =? 0) eqn:E; cbn [fst snd].
    - change (2 ^ (1 - 1075 + 1074)) with 1. lia.
    - replace (e - 1075 + 1074) with (e - 1) by lia. ring. }
  assert (Hnext : float_scaled (b + 1) = (mant + 1) * P).
  { unfold b, mant, P, exp2, decoded.
    destruct (Z_lt_ge_dec (m + 1) (2 ^ 52)) as [Hlt|Hge].
    - replace (e * 2 ^ 52 + m + 1) with (e * 2 ^ 52 + (m + 1)) by ring.
      rewrite float_scaled_at by lia.
      destruct (e =? 0) eqn:E; cbn [fst snd].
      + change (2 ^ (1 - 1075 + 1074)) with 1. lia.
      + replace (e - 1075 + 1074) with (e - 1) by lia. ring.
    - assert (Hmax : m = 2 ^ 52 - 1) by lia.
      replace (e * 2 ^ 52 + m + 1) with ((e + 1) * 2 ^ 52 + 0)
        by (rewrite Hmax; ring).
      rewrite float_scaled_at by lia.
      replace (e + 1 =? 0) with false by lia.
      replace (e + 1 - 1) with e by lia.
      destruct (e =? 0) eqn:E; cbn [fst snd].
      + apply Z.eqb_eq in E. subst e.
        change (2 ^ (1 - 1075 + 1074)) with 1. change (2 ^ 0) with 1. lia.
      + apply Z.eqb_neq in E.
        replace (e - 1075 + 1074) with (e - 1) by lia.
        replace e with (Z.succ (e - 1)) at 1 by lia.
        rewrite Z.pow_succ_r by lia. rewrite Hmax. ring. }
  assert (Hmant : 0 < mant).
  { unfold mant, decoded. destruct (e =? 0) eqn:E; cbn [snd].
    - apply Z.eqb_eq in E. subst e. unfold b in Hb. lia.
    - assert (0 < 2 ^ 52) by reflexivity. lia. }
  split; [exact Hmant|]. split; [|rewrite Hhere, Hnext; ring].
  rewrite Hhere.
  destruct (Z_lt_ge_dec 0 m) as [Hpos|Hzero].
  - (* the float before has the same exponent *)
    assert (Hprev : float_scaled (b - 1) = (mant - 1) * P).
    { unfold b, mant, P, exp2, decoded.
      replace (e * 2 ^ 52 + m - 1) with (e * 2 ^ 52 + (m - 1)) by ring.
      rewrite float_scaled_at by lia.
      destruct (e =? 0) eqn:E; cbn [fst snd].
      + change (2 ^ (1 - 1075 + 1074)) with 1. lia.
      + replace (e - 1075 + 1074) with (e - 1) by lia. ring. }
    rewrite Hprev.
    assert (Hlower : lower = 4 * mant - 2).
    { unfold lower, mant, exp2, decoded.
      destruct (e =? 0) eqn:E; cbn [fst snd].
      - change (1 - 1075 =? -1074) with true. now rewrite orb_true_r.
      - replace (2 ^ 52 <? m + 2 ^ 52) with true by lia. reflexivity. }
    rewrite Hlower. ring.
  - assert (Hm0 : m = 0) by lia. assert (He1 : 1 <= e) by (unfold b in Hb; lia).
    destruct (Z.eq_dec e 1) as [->|Hne].
    + (* the smallest normal float: the float before is subnormal *)
      assert (Hprev : float_scaled (b - 1) = (mant - 1) * P).
      { unfold b, mant, P, exp2, decoded. rewrite Hm0.
        replace (1 * 2 ^ 52 + 0 - 1) with (0 * 2 ^ 52 + (2 ^ 52 - 1)) by ring.
        rewrite float_scaled_at by (try split; try reflexivity; lia).
        cbn [Z.eqb fst snd]. change (2 ^ (1 - 1075 + 1074)) with 1. lia. }
      rewrite Hprev.
      assert (Hlower : lower = 4 * mant - 2).
      { unfold lower, mant, exp2, decoded. cbn [Z.eqb fst snd].
        change (1 - 1075 =? -1074) with true. now rewrite orb_true_r. }
      rewrite Hlower. ring.
    + (* a power of two: the floats before are twice as dense *)
      assert (Hprev : 2 * float_scaled (b - 1) = (2 * mant - 1) * P).
      { unfold b, mant, P, exp2, decoded. rewrite Hm0.
        replace (e * 2 ^ 52 + 0 - 1)
          with ((e - 1) * 2 ^ 52 + (2 ^ 52 - 1)) by ring.
        rewrite float_scaled_at by (try split; try reflexivity; lia).
        replace (e - 1 =? 0) with false by lia.
        replace (e =? 0) with false by lia. cbn [fst snd].
        replace (e - 1075 + 1074) with (Z.succ (e - 1 - 1)) by lia.
        rewrite Z.pow_succ_r by lia. ring. }
      assert (Hlower : lower = 4 * mant - 1).
      { unfold lower, mant, exp2, decoded.
        replace (e =? 0) with false by lia. cbn [fst snd]. rewrite Hm0.
        replace (e - 1075 =? -1074) with false by lia. reflexivity. }
      rewrite Hlower. lia.
Qed.

Lemma leb_scaled (x y x' y' s s' : Z) :
  0 < s -> 0 < s' -> x * s = x' * s' -> y * s = y' * s' ->
  (x <=? y) = (x' <=? y').
Proof.
  intros Hs Hs' Hx Hy. apply eq_iff_eq_true. rewrite !Z.leb_le.
  rewrite (Z.mul_le_mono_pos_r x y s Hs), (Z.mul_le_mono_pos_r x' y' s' Hs').
  now rewrite Hx, Hy.
Qed.

Lemma ltb_scaled (x y x' y' s s' : Z) :
  0 < s -> 0 < s' -> x * s = x' * s' -> y * s = y' * s' ->
  (x <? y) = (x' <? y').
Proof.
  intros Hs Hs' Hx Hy. apply eq_iff_eq_true. rewrite !Z.ltb_lt.
  rewrite (Z.mul_lt_mono_pos_r s x y Hs), (Z.mul_lt_mono_pos_r s' x' y' Hs').
  now rewrite Hx, Hy.
Qed.

(** The rounding interval of the search is the set of the decimals
    that read back as the float. *)
Lemma rounds_to_reparses (e m c q : Z) :
  0 <= e -> 0 <= m < 2 ^ 52 -> 0 < e * 2 ^ 52 + m ->
  strconv.rounds_to (snd (decoded e m)) (fst (decoded e m)) c q
  = reparses (e * 2 ^ 52 + m) c q.
Proof.
  intros He Hm Hb.
  destruct (half_way_points e m He Hm Hb) as (Hmant & Hbefore & Hafter).
  cbv zeta in Hbefore, Hafter.
  set (b := e * 2 ^ 52 + m) in *.
  set (exp2 := fst (decoded e m)) in *.
  set (mant := snd (decoded e m)) in *.
  set (lower := if (2 ^ 52 <? mant) || (exp2 =? -1074)
                then 4 * mant - 2 else 4 * mant - 1) in *.
  set (P := 2 ^ (exp2 + 1074)) in *.
  assert (Hexp : -1074 <= exp2).
  { unfold exp2, decoded. destruct (e =? 0) eqn:E; cbn [fst]; lia. }
  assert (HP : 0 < P) by (apply Z.pow_pos_nonneg; lia).
  assert (Heven : Z.even mant = Z.even b).
  { unfold mant, b, decoded.
    destruct (e =? 0); cbn [snd];
      rewrite !Z.even_add, ?Z.even_mul; change (Z.even (2 ^ 52)) with true;
      rewrite ?orb_true_r; cbn; now destruct (Z.even m). }
  unfold strconv.rounds_to, strconv.bounds, reparses.
  fold lower. rewrite Heven.
  set (before := float_scaled (b - 1) + float_scaled b) in *.
  set (after := float_scaled b + float_scaled (b + 1)) in *.
  assert (H1076 : 2 ^ 1076 = 4 * 2 ^ 1074) by reflexivity.
  destruct (0 <=? exp2 - 2) eqn:Ek.
  - (* the interval has integer bounds *)
    apply Z.leb_le in Ek.
    assert (HK : 0 < 2 ^ (exp2 - 2)) by (apply Z.pow_pos_nonneg; lia).
    assert (HPK : P = 2 ^ (exp2 - 2) * 2 ^ 1076).
    { unfold P. rewrite <- Z.pow_add_r by lia. f_equal. lia. }
    set (K := 2 ^ (exp2 - 2)) in *.
    set (C := 2 ^ 1074) in *.
    assert (HC : 0 < C) by reflexivity.
    unfold strconv.in_interval, strconv.cross.
    destruct (0 <=? q) eqn:Eq.
    + apply Z.leb_le in Eq.
      assert (HT : 0 < 10 ^ q) by (apply Z.pow_pos_nonneg; lia).
      set (T := 10 ^ q) in *.
      destruct (Z.even b); f_equal;
        (apply (leb_scaled _ _ _ _ (4 * C) 2)
         || apply (ltb_scaled _ _ _ _ (4 * C) 2)); try lia;
        rewrite ?(Z.mul_comm before), ?(Z.mul_comm after);
        try (rewrite Z.mul_1_r, Z.mul_comm, (Z.mul_comm _ 2), Hbefore, HPK, H1076; ring);
        try (rewrite Z.mul_1_r, Z.mul_comm, (Z.mul_comm _ 2), Hafter, HPK, H1076; ring);
        ring.
    + apply Z.leb_gt in Eq.
      assert (HT : 0 < 10 ^ (- q)) by (apply Z.pow_pos_nonneg; lia).
      set (T := 10 ^ (- q)) in *.
      destruct (Z.even b); f_equal;
        (apply (leb_scaled _ _ _ _ (4 * C) 2)
         || apply (ltb_scaled _ _ _ _ (4 * C) 2)); try lia;
        try (replace (before * T * 2) with (2 * before * T) by ring;
             rewrite Hbefore, HPK, H1076; ring);
        try (replace (after * T * 2) with (2 * after * T) by ring;
             rewrite Hafter, HPK, H1076; ring);
        ring.
  - apply Z.leb_gt in Ek.
    assert (HK : 0 < 2 ^ (- (exp2 - 2))) by (apply Z.pow_pos_nonneg; lia).
    assert (HPK : P * 2 ^ (- (exp2 - 2)) = 2 ^ 1076).
    { unfold P. rewrite <- Z.pow_add_r by lia. f_equal. lia. }
    set (K := 2 ^ (- (exp2 - 2))) in *.
    set (C := 2 ^ 1074) in *.
    assert (HC : 0 < C) by reflexivity.
    unfold strconv.in_interval, strconv.cross.
    destruct (0 <=? q) eqn:Eq.
    + apply Z.leb_le in Eq.
      assert (HT : 0 < 10 ^ q) by (apply Z.pow_pos_nonneg; lia).
      set (T := 10 ^ q) in *.
      destruct (Z.even b); f_equal;
        (apply (leb_scaled _ _ _ _ P 2)
         || apply (ltb_scaled _ _ _ _ P 2)); try lia;
        try (replace (before * 1 * 2) with (2 * before) by ring;
             rewrite Hbefore; ring);
        try (replace (after * 1 * 2) with (2 * after) by ring;
             rewrite Hafter; ring);
        try (replace (c * (K * T) * P) with (c * T * (P * K)) by ring;
             rewrite HPK, H1076; ring).
    + apply Z.leb_gt in Eq.
      assert (HT : 0 < 10 ^ (- q)) by (apply Z.pow_pos_nonneg; lia).
      set (T := 10 ^ (- q)) in *.
      destruct (Z.even b); f_equal;
        (apply (leb_scaled _ _ _ _ P 2)
         || apply (ltb_scaled _ _ _ _ P 2)); try lia;
        try (replace (before * T * 2) with (2 * before * T) by ring;
             rewrite Hbefore; ring);
        try (replace (after * T * 2) with (2 * after * T) by ring;
             rewrite Hafter; ring);
        try (replace (c * K * P) with (c * (P * K)) by ring;
             rewrite HPK, H1076; ring).
Qed.

(** *** The fewest digits *)

(** [reparses] as inequalities: the decimal against the two half-way
    points, both sides brought to integers. *)
Lemma reparses_true (b c q : Z) :
  let before := float_scaled (b - 1) + float_scaled b in
  let after := float_scaled b + float_scaled (b + 1) in
  let S := 2 * 2 ^ 1074 * 10 ^ Z.max q 0 in
  let O := 10 ^ Z.max (- q) 0 in
  reparses b c q = true <->
  if Z.even b
  then before * O <= c * S <= after * O
  else before * O < c * S < after * O.
Proof.
  intros before after S O. unfold reparses. fold before after.
  destruct (0 <=? q) eqn:Eq.
  - apply Z.leb_le in Eq.
    assert (HS : 2 * (c * 10 ^ q) * 2 ^ 1074 = c * S).
    { unfold S. rewrite Z.max_l by lia. ring. }
    assert (HO : O = 1) by (unfold O; now rewrite Z.max_r by lia).
    rewrite HS, HO.
    destruct (Z.even b); rewrite andb_true_iff, ?Z.leb_le, ?Z.ltb_lt; tauto.
  - apply Z.leb_gt in Eq.
    assert (HS : 2 * c * 2 ^ 1074 = c * S).
    { unfold S. rewrite Z.max_r by lia. change (10 ^ 0) with 1. ring. }
    assert (HO : 10 ^ (- q) = O) by (unfold O; now rewrite Z.max_l by lia).
    rewrite HS, HO.
    destruct (Z.even b); rewrite andb_true_iff, ?Z.leb_le, ?Z.ltb_lt; tauto.
Qed.

(** The same decimal with [n] more digits: [c * 10^q] is
    [(c * 10^n) * 10^(q - n)]. *)
Lemma reparses_shift (b c q n : Z) :
  0 <= n -> reparses b (c * 10 ^ n) (q - n) = reparses b c q.
Proof.
  intros Hn. apply eq_iff_eq_true. rewrite !reparses_true.
  set (before := float_scaled (b - 1) + float_scaled b).
  set (after := float_scaled b + float_scaled (b + 1)).
  assert (HT : 0 < 10 ^ n) by (apply Z.pow_pos_nonneg; lia).
  assert (Hrel : 10 ^ n * 10 ^ Z.max (q - n) 0 * 10 ^ Z.max (- q) 0
                 = 10 ^ Z.max q 0 * 10 ^ Z.max (- (q - n)) 0).
  { rewrite <- !Z.pow_add_r by lia. f_equal. lia. }
  set (A := 10 ^ Z.max (q - n) 0) in *.
  set (B := 10 ^ Z.max (- q) 0) in *.
  set (A' := 10 ^ Z.max q 0) in *.
  set (B' := 10 ^ Z.max (- (q - n)) 0) in *.
  assert (HA : 0 < A) by (apply Z.pow_pos_nonneg; lia).
  assert (HB : 0 < B) by (apply Z.pow_pos_nonneg; lia).
  assert (HA' : 0 < A') by (apply Z.pow_pos_nonneg; lia).
  assert (HB' : 0 < B') by (apply Z.pow_pos_nonneg; lia).
  set (C := 2 * 2 ^ 1074).
  assert (HC : 0 < C) by reflexivity.
  (* multiply the inequalities at [q - n] by [B], those at [q] by [B'] *)
  assert (Hv : c * 10 ^ n * (C * A) * B = c * (C * A') * B').
  { replace (c * 10 ^ n * (C * A) * B) with (c * C * (10 ^ n * A * B)) by ring.
    rewrite Hrel. ring. }
  assert (Hle : forall x, x * B' * B <= c * 10 ^ n * (C * A) * B
                          <-> x * B <= c * (C * A')).
  { intros x. rewrite Hv.
    replace (x * B' * B) with (x * B * B') by ring.
    symmetry. apply Z.mul_le_mono_pos_r; assumption. }
  assert (Hge : forall x, c * 10 ^ n * (C * A) * B <= x * B' * B
                          <-> c * (C * A') <= x * B).
  { intros x. rewrite Hv.
    replace (x * B' * B) with (x * B * B') by ring.
    symmetry. apply Z.mul_le_mono_pos_r; assumption. }
  assert (Hlt : forall x, x * B' * B < c * 10 ^ n * (C * A) * B
                          <-> x * B < c * (C * A')).
  { intros x. rewrite Hv.
    replace (x * B' * B) with (x * B * B') by ring.
    symmetry. apply Z.mul_lt_mono_pos_r; assumption. }
  assert (Hgt : forall x, c * 10 ^ n * (C * A) * B < x * B' * B
                          <-> c * (C * A') < x * B).
  { intros x. rewrite Hv.
    replace (x * B' * B) with (x * B * B') by ring.
    symmetry. apply Z.mul_lt_mono_pos_r; assumption. }
  destruct (Z.even b).
  - rewrite (Z.mul_le_mono_pos_r (before * B') _ B HB),
      (Z.mul_le_mono_pos_r _ (after * B') B HB), Hle, Hge. tauto.
  - rewrite (Z.mul_lt_mono_pos_r B (before * B') _ HB),
      (Z.mul_lt_mono_pos_r B _ (after * B') HB), Hlt, Hgt. tauto.
Qed.

(** Among the decimals that read back as a float, those with the
    largest exponent have the fewest digits: the half-way points are
    less than a factor of ten apart. *)
Lemma fewest_digits (b c q : Z) :
  let before := float_scaled (b - 1) + float_scaled b in
  let after := float_scaled b + float_scaled (b + 1) in
  0 < before -> after <= 3 * before ->
  reparses b c q = true ->
  (forall c' q', q < q' -> reparses b c' q' = false) ->
  forall c' q' j,
    0 <= j -> reparses b c' q' = true -> c' < 10 ^ j -> c < 10 ^ j.
Proof.
  intros before after Hpos Hratio Hc Hmax c' q' j Hj Hc' Hfew.
  destruct (Z_lt_ge_dec c (10 ^ j)) as [|Hmany]; [assumption|exfalso].
  assert (Hq : q' <= q).
  { destruct (Z_le_gt_dec q' q) as [|Hgt]; [assumption|].
    rewrite (Hmax c' q') in Hc' by lia. discriminate. }
  assert (HT : 0 < 10 ^ j) by (apply Z.pow_pos_nonneg; lia).
  (* both decimals at the exponent [q'] *)
  rewrite <- (reparses_shift b c q (q - q')) in Hc by lia.
  replace (q - (q - q')) with q' in Hc by lia.
  apply reparses_true in Hc, Hc'. cbv zeta in Hc, Hc'.
  fold before after in Hc, Hc'.
  set (S := 2 * 2 ^ 1074 * 10 ^ Z.max q' 0) in *.
  set (O := 10 ^ Z.max (- q') 0) in *.
  assert (HS : 0 < S).
  { unfold S. assert (0 < 10 ^ Z.max q' 0) by (apply Z.pow_pos_nonneg; lia).
    assert (0 < 2 ^ 1074) by reflexivity. nia. }
  assert (HO : 0 < O) by (apply Z.pow_pos_nonneg; lia).
  assert (Hc'pos : 0 < c') by (destruct (Z.even b); nia).
  destruct (Z.eq_dec q' q) as [Heq|Hne].
  - (* the same exponent: a power of ten lies between them *)
    subst q'. replace (q - q) with 0 in Hc by lia.
    change (10 ^ 0) with 1 in Hc. rewrite Z.mul_1_r in Hc.
    destruct (Z.eq_dec j 0) as [->|Hj0]; [change (10 ^ 0) with 1 in *; lia|].
    assert (Hten : reparses b (10 ^ (j - 1)) (q + 1) = true).
    { rewrite <- (reparses_shift b (10 ^ (j - 1)) (q + 1) 1) by lia.
      replace (q + 1 - 1) with q by lia.
      rewrite <- Z.pow_add_r by lia. replace (j - 1 + 1) with j by lia.
      apply reparses_true. cbv zeta. fold before after S O.
      destruct (Z.even b); nia. }
    rewrite (Hmax _ (q + 1)) in Hten by lia. discriminate.
  - (* a smaller exponent: the other decimal is ten times as long *)
    assert (Hn : 10 <= 10 ^ (q - q')).
    { change 10 with (10 ^ 1) at 1. apply Z.pow_le_mono_r; lia. }
    set (N := 10 ^ (q - q')) in *.
    assert (Hcpos : 0 < c) by lia.
    assert (Hlong : c * N * S <= 3 * (c' * S)) by (destruct (Z.even b); nia).
    assert (Hcn : c * N <= 3 * c') by nia.
    nia.
Qed.

(** *** The fields of a bit pattern *)

Lemma float64_fields (bits : Z) :
  0 <= bits < 2 ^ 64 ->
  let e := (bits / 2 ^ 52) mod 2 ^ 11 in
  let m := bits mod 2 ^ 52 in
  negb (Z.shiftr bits 63 =? 0) = (2 ^ 63 <=? bits)
  /\ Z.land (Z.shiftr bits 52) (2 ^ 11 - 1) = e
  /\ Z.land bits (2 ^ 52 - 1) = m
  /\ Z.lor (Z.land bits (2 ^ 52 - 1)) (2 ^ 52) = m + 2 ^ 52
  /\ bits mod 2 ^ 63 = e * 2 ^ 52 + m
  /\ 0 <= e < 2 ^ 11 /\ 0 <= m < 2 ^ 52.
Proof.
  intros Hb e m.
  assert (Hneg : negb (Z.shiftr bits 63 =? 0) = (2 ^ 63 <=? bits)).
  { rewrite Z.shiftr_div_pow2 by lia.
    change (2 ^ 63) with 9223372036854775808 in *.
    change (2 ^ 64) with 18446744073709551616 in *.
    destruct (9223372036854775808 <=? bits) eqn:E.
    - apply Z.leb_le in E.
      assert (0 < bits / 9223372036854775808)
        by (apply Z.div_str_pos; lia).
      replace (bits / 9223372036854775808 =? 0) with false by lia.
      reflexivity.
    - apply Z.leb_gt in E. rewrite Z.div_small by lia. reflexivity. }
  assert (He : Z.land (Z.shiftr bits 52) (2 ^ 11 - 1) = e).
  { change (2 ^ 11 - 1) with (Z.ones 11).
    rewrite Z.land_ones, Z.shiftr_div_pow2 by lia. reflexivity. }
  assert (Hm : Z.land bits (2 ^ 52 - 1) = m).
  { change (2 ^ 52 - 1) with (Z.ones 52). now rewrite Z.land_ones by lia. }
  assert (Hlor : Z.lor (Z.land bits (2 ^ 52 - 1)) (2 ^ 52) = m + 2 ^ 52).
  { assert (Hdisj : Z.land (Z.land bits (2 ^ 52 - 1)) (2 ^ 52) = 0).
    { rewrite <- Z.land_assoc.
      change (Z.land (2 ^ 52 - 1) (2 ^ 52)) with 0. apply Z.land_0_r. }
    rewrite <- Z.lxor_lor, <- Z.add_nocarry_lxor by exact Hdisj.
    now rewrite Hm. }
  assert (Hrange : 0 <= e < 2 ^ 11 /\ 0 <= m < 2 ^ 52).
  { split; apply Z.mod_pos_bound; reflexivity. }
  repeat split; try assumption; try apply Hrange.
  unfold e, m.
  change (2 ^ 63) with 9223372036854775808 in *.
  change (2 ^ 64) with 18446744073709551616 in *.
  change (2 ^ 52) with 4503599627370496 in *.
  change (2 ^ 11) with 2048 in *.
  Z.div_mod_to_equations. lia.
Qed.

Lemma AppendFloat_finite (bits : Z) :
  0 <= bits < 2 ^ 64 ->
  let e := (bits / 2 ^ 52) mod 2 ^ 11 in
  let m := bits mod 2 ^ 52 in
  e <> 2047 ->
  strconv.AppendFloat [] bits
  = let digs := strconv.shortest (snd (decoded e m)) (fst (decoded e m)) in
    strconv.fmtF [] (2 ^ 63 <=? bits) digs
                 (Z.max (strconv.nd digs - strconv.dp digs) 0).
Proof.
  intros Hb e m He.
  destruct (float64_fields bits Hb) as (Hneg & Hexp & Hmant & Hlor & _).
  fold e in Hexp. fold m in Hmant, Hlor.
  unfold strconv.AppendFloat. rewrite Hneg, Hexp, Hlor, Hmant.
  change (2 ^ 11 - 1) with 2047.
  replace (e =? 2047) with false by lia.
  unfold decoded. destruct (e =? 0) eqn:E; cbn [fst snd].
  - apply Z.eqb_eq in E. rewrite E. reflexivity.
  - replace (e + -1023 - 52) with (e - 1075) by lia. reflexivity.
Qed.

(** What [AppendFloat] writes for a finite float64 reads back as that
    float64; no decimal with a larger exponent does, and every decimal
    that does has as many digits or more. *)
Lemma AppendFloat_reads_back (bits : Z) :
  0 <= bits < 2 ^ 64 ->
  (bits / 2 ^ 52) mod 2 ^ 11 <> 2047 ->
  let b := bits mod 2 ^ 63 in
  let text := strconv.AppendFloat [] bits in
  (b = 0 -> parse_decimal text = Some (2 ^ 63 <=? bits, 0, 0))
  /\ (0 < b ->
      exists c q,
        parse_decimal text
        = Some (2 ^ 63 <=? bits, fst (written c q), snd (written c q))
        /\ reparses b c q = true
        /\ (forall c' q', q < q' -> reparses b c' q' = false)
        /\ forall c' q' j,
            0 <= j -> reparses b c' q' = true -> c' < 10 ^ j -> c < 10 ^ j).
Proof.
  intros Hb He b text. subst text.
  rewrite (AppendFloat_finite bits Hb He).
  destruct (float64_fields bits Hb) as (_ & _ & _ & _ & Hbits & Hre & Hrm).
  cbv zeta in Hbits, Hre, Hrm.
  set (e := (bits / 2 ^ 52) mod 2 ^ 11) in *.
  set (m := bits mod 2 ^ 52) in *.
  fold b in Hbits. split.
  - intros Hz.
    assert (He0 : e = 0) by (assert (0 < 2 ^ 52) by reflexivity; nia).
    assert (Hm0 : m = 0) by lia.
    rewrite He0, Hm0. destruct (2 ^ 63 <=? bits); reflexivity.
  - intros Hpos. rewrite Hbits in Hpos |- *.
    destruct (half_way_points e m ltac:(lia) Hrm Hpos)
      as (Hmant & Hbefore & Hafter).
    cbv zeta in Hmant, Hbefore, Hafter.
    set (mant := snd (decoded e m)) in *.
    set (exp2 := fst (decoded e m)) in *.
    destruct (shortest_decimal_spec mant exp2 Hmant) as [Hin Hmax].
    exists (fst (strconv.shortest_decimal mant exp2)),
           (snd (strconv.shortest_decimal mant exp2)).
    set (c := fst (strconv.shortest_decimal mant exp2)) in *.
    set (q := snd (strconv.shortest_decimal mant exp2)) in *.
    assert (Hc : 0 < c).
    { unfold strconv.rounds_to in Hin.
      destruct (strconv.bounds mant exp2) as [[[x lo] up] den] eqn:Hbd.
      destruct (bounds_facts _ _ _ _ _ _ Hmant Hbd) as (Hden & Hlo & _).
      destruct (strconv.cross den q) as [A B] eqn:HAB.
      destruct (cross_pos _ _ _ _ Hden HAB) as [HA HB].
      apply (in_interval_true _ _ _ _ _ _ _ _ HAB) in Hin.
      destruct (Z.even mant); nia. }
    assert (Hreads : reparses (e * 2 ^ 52 + m) c q = true).
    { unfold mant, exp2 in Hin.
      now rewrite rounds_to_reparses in Hin by (assumption || lia). }
    assert (Hlargest : forall c' q',
               q < q' -> reparses (e * 2 ^ 52 + m) c' q' = false).
    { intros c' q' Hq.
      rewrite <- rounds_to_reparses by (assumption || lia).
      now apply Hmax. }
    split; [|split; [exact Hreads|split; [exact Hlargest|]]].
    + assert (Hs : strconv.shortest mant exp2
                   = {| strconv.d := strconv.Itoa c;
                        strconv.nd := len (strconv.Itoa c);
                        strconv.dp := len (strconv.Itoa c) + q |}).
      { unfold strconv.shortest. replace (mant =? 0) with false by lia.
        unfold c, q. now destruct (strconv.shortest_decimal mant exp2). }
      cbv zeta. rewrite Hs. apply parse_decimal_fmtF. lia.
    + assert (HP : 0 < 2 ^ (exp2 + 1074)).
      { apply Z.pow_pos_nonneg; [lia|].
        unfold exp2, decoded. destruct (e =? 0) eqn:E; cbn [fst]; lia. }
      set (P := 2 ^ (exp2 + 1074)) in *.
      set (lower := if (2 ^ 52 <? mant) || (exp2 =? -1074)
                    then 4 * mant - 2 else 4 * mant - 1) in *.
      assert (Hlower : 4 * mant - 2 <= lower)
        by (unfold lower; destruct ((2 ^ 52 <? mant) || (exp2 =? -1074)); lia).
      apply (fewest_digits (e * 2 ^ 52 + m) c q); try assumption; nia.
Qed.

Section Runs.
Context {Ext : Type} {levels : Levels} {timelib : TimeLib}.

Local Abbreviation World := (World Ext).
Local Abbreviation M := (M Ext).

Lemma cell_set_cell_eq (w : World) l e : cell (set_cell l e w) l = e.
Proof. unfold cell, set_cell; cbn. apply lookup_total_insert_eq. Qed.

Lemma cell_set_cell_ne (w : World) l l' e :
  l ≠ l' -> cell (set_cell l e w) l' = cell w l'.
Proof.
  intros. unfold cell, set_cell; cbn. now apply lookup_total_insert_ne.
Qed.

Lemma set_cell_set_cell (w : World) l e e' :
  set_cell l e (set_cell l e' w) = set_cell l e w.
Proof. unfold set_cell; cbn. now rewrite insert_insert_eq. Qed.

Lemma heap_set_cell_ne (w : World) l l' e :
  l ≠ l' -> heap (set_cell l e w) !! l' = heap w !! l'.
Proof. intros. unfold set_cell; cbn. now apply lookup_insert_ne. Qed.

(** One step of a run. *)
Lemma bind_run {A B} (c : M A) (k : A -> M B) (w w' : World) (a : A) :
  c w = (a, w') -> (c ≫= k) w = k a w'.
Proof. unfold mbind, M_bind. now intros ->. Qed.

Lemma bind_assoc {A B C} (c : M A) (k : A -> M B) (k' : B -> M C) (w : World) :
  ((c ≫= k) ≫= k') w = (c ≫= (fun a => k a ≫= k')) w.
Proof. unfold mbind, M_bind. now destruct (c w). Qed.

Lemma bind_load {B} l (k : textEncoder -> M B) (w : World) :
  (load l ≫= k) w = k (cell w l) w.
Proof. reflexivity. Qed.

Lemma bind_modify {B} l f (k : unit -> M B) (w : World) :
  (modify l f ≫= k) w = k tt (set_cell l (f (cell w l)) w).
Proof. reflexivity. Qed.

Lemma bind_append {B} l bs (k : unit -> M B) (w : World) :
  (append l bs ≫= k) w
  = k tt (set_cell l (with_bytes (bytes (cell w l) ++ bs) (cell w l)) w).
Proof. reflexivity. Qed.

Lemma bind_ret {A B} (a : A) (k : A -> M B) (w : World) :
  (mret a ≫= k) w = k a w.
Proof. reflexivity. Qed.

Lemma modify_run l f (w : World) :
  modify l f w = (tt, set_cell l (f (cell w l)) w).
Proof. reflexivity. Qed.

Lemma append_run l bs (w : World) :
  append l bs w
  = (tt, set_cell l (with_bytes (bytes (cell w l) ++ bs) (cell w l)) w).
Proof. reflexivity. Qed.

Ltac wsimp :=
  repeat first
    [ rewrite cell_set_cell_eq
    | rewrite set_cell_set_cell
    | rewrite cell_set_cell_ne by (assumption || congruence) ].

Ltac run :=
  repeat first
    [ rewrite bind_assoc
    | rewrite bind_load
    | rewrite bind_modify
    | rewrite bind_append
    | rewrite bind_ret
    | rewrite modify_run
    | rewrite append_run
    | progress wsimp ].

Lemma addKey_run enc key (w : World) :
  addKey enc key w = (tt, set_cell enc (key_cell key (cell w enc)) w).
Proof.
  unfold addKey, key_cell. rewrite bind_load.
  replace (0 <=? len (bytes (cell w enc)) - 1)
    with (0 <? len (bytes (cell w enc))) by (unfold len; lia).
  destruct ((0 <? len (bytes (cell w enc))) && negb (firstNested (cell w enc)))
    eqn:E; run.
  - apply andb_true_iff in E as [_ E]. apply negb_true_iff in E.
    unfold with_bytes; cbn. rewrite E, <- !app_assoc. reflexivity.
  - unfold with_bytes, with_firstNested; cbn.
    rewrite <- !app_assoc. reflexivity.
Qed.

Lemma AddString_run enc key val (w : World) :
  AddString enc key val w
  = (tt, set_cell enc (field_cell key (bytes_of val) (cell w enc)) w).
Proof.
  unfold AddString. erewrite bind_run by apply addKey_run. run. reflexivity.
Qed.

Lemma AddBool_run enc key val (w : World) :
  AddBool enc key val w
  = (tt, set_cell enc
           (field_cell key (bytes_of (if val then "true" else "false"))
                       (cell w enc)) w).
Proof.
  unfold AddBool. erewrite bind_run by apply addKey_run. run. reflexivity.
Qed.

Lemma AddInt64_run enc key val (w : World) :
  AddInt64 enc key val w
  = (tt, set_cell enc (field_cell key (strconv.Itoa val) (cell w enc)) w).
Proof.
  unfold AddInt64. erewrite bind_run by apply addKey_run. run. reflexivity.
Qed.

Lemma AddUint64_run enc key val (w : World) :
  AddUint64 enc key val w
  = (tt, set_cell enc
           (field_cell key (strconv.AppendUint [] val 10) (cell w enc)) w).
Proof.
  unfold AddUint64. erewrite bind_run by apply addKey_run. run. reflexivity.
Qed.

Lemma AddUintptr_run enc key val (w : World) :
  AddUintptr enc key val w
  = (tt, set_cell enc
           (field_cell key (bytes_of "0x" ++ strconv.AppendUint [] val 16)
                       (cell w enc)) w).
Proof.
  unfold AddUintptr. erewrite bind_run by apply addKey_run. run.
  unfold field_cell, with_bytes; cbn [bytes timeFmt firstNested].
  rewrite strconv_AppendUint_app, <- !app_assoc. reflexivity.
Qed.

Lemma AddFloat64_run enc key val (w : World) :
  AddFloat64 enc key val w
  = (tt, set_cell enc
           (field_cell key (strconv.AppendFloat [] val) (cell w enc)) w).
Proof.
  unfold AddFloat64. erewrite bind_run by apply addKey_run. run.
  unfold field_cell, with_bytes; cbn [bytes timeFmt firstNested].
  rewrite strconv_AppendFloat_app. reflexivity.
Qed.

Lemma AddMarshaler_run enc key (obj : LogMarshaler Ext) (w : World) :
  AddMarshaler enc key obj w
  = let '(err, w2) := obj enc (set_cell enc (open_cell key (cell w enc)) w) in
    (err, set_cell enc (close_cell (cell w2 enc)) w2).
Proof.
  unfold AddMarshaler. erewrite bind_run by apply addKey_run. run.
  change (set_cell enc _ w) with (set_cell enc (open_cell key (cell w enc)) w).
  unfold mbind at 1, M_bind at 1.
  destruct (obj enc (set_cell enc (open_cell key (cell w enc)) w)) as [err w2].
  run. reflexivity.
Qed.

(** *** The pool *)

Lemma Get_run (w : World) : textPool_Get w = (got w, after_Get w).
Proof. unfold after_Get, textPool_Get, got. now destruct (pool w). Qed.

Lemma got_fresh (w : World) (enc : loc) : live w enc -> got w ≠ enc.
Proof.
  unfold live, got. intros [Hn Hp]. destruct (pool w) as [|l free].
  - lia.
  - intros ->. apply Hp. left.
Qed.

Lemma heap_after_Get (w : World) l :
  l ≠ got w -> heap (after_Get w) !! l = heap w !! l.
Proof.
  unfold after_Get, textPool_Get, got. destruct (pool w); cbn; [|done].
  intros. now apply lookup_insert_ne.
Qed.

Lemma cell_after_Get (w : World) l :
  l ≠ got w -> cell (after_Get w) l = cell w l.
Proof.
  intros Hl. unfold cell. rewrite !lookup_total_alt.
  now rewrite heap_after_Get.
Qed.

Lemma pool_after_Get (w : World) : pool (after_Get w) = tail (pool w).
Proof. unfold after_Get, textPool_Get. now destruct (pool w). Qed.

Lemma outside_after_Get (w : World) : outside (after_Get w) = outside w.
Proof. unfold after_Get, textPool_Get. now destruct (pool w). Qed.

Lemma next_after_Get (w : World) : (next w <= next (after_Get w))%nat.
Proof. unfold after_Get, textPool_Get. destruct (pool w); cbn; lia. Qed.

Lemma wf_after_Get (w : World) : wf w -> wf (after_Get w).
Proof.
  unfold wf, after_Get, textPool_Get. intros [Hnd Hall].
  destruct (pool w) as [|l free]; cbn.
  - split; constructor.
  - inversion Hnd; subst. inversion Hall; subst. now split.
Qed.

Lemma live_after_Get (w : World) l :
  live w l -> live (after_Get w) l.
Proof.
  unfold live, after_Get, textPool_Get. intros [Hl Hni].
  destruct (pool w) as [|l' free]; cbn.
  - split; [lia|apply not_elem_of_nil].
  - split; [assumption|]. intros Hin. apply Hni. now right.
Qed.

Lemma got_live_after_Get (w : World) : wf w -> live (after_Get w) (got w).
Proof.
  unfold wf, live, got, after_Get, textPool_Get. intros [Hnd Hall].
  destruct (pool w) as [|l free]; cbn.
  - split; [lia|apply not_elem_of_nil].
  - inversion Hnd; subst. inversion Hall; subst. now split.
Qed.

Lemma Clone_run enc (w : World) :
  got w ≠ enc ->
  Clone enc w = (got w, set_cell (got w) (cell w enc) (after_Get w)).
Proof.
  intros Hne. unfold Clone, truncate.
  erewrite bind_run by apply Get_run.
  assert (Hc : cell (after_Get w) enc = cell w enc)
    by (apply cell_after_Get; congruence).
  run. rewrite !Hc. unfold mret, M_ret. do 2 f_equal.
  destruct (cell w enc); reflexivity.
Qed.

(** *** The entry *)

Lemma addLevel_run enc final lvl (w : World) :
  addLevel enc final lvl w
  = (tt, set_cell final
           (with_bytes (bytes (cell w final)
                          ++ ["["%byte] ++ level_tag lvl ++ ["]"%byte])
                       (cell w final)) w).
Proof.
  unfold addLevel, level_tag. rewrite bind_append.
  repeat match goal with
         | |- context [if ?b then _ else _] => destruct b
         end; run; unfold with_bytes; cbn [bytes timeFmt firstNested];
    rewrite ?strconv_AppendInt_Itoa, <- ?app_assoc; reflexivity.
Qed.

Lemma addTime_run enc final t (w : World) :
  final ≠ enc ->
  addTime enc final t w
  = (tt, if String.eqb (timeFmt (cell w enc)) "" then w
         else set_cell final
                (with_bytes (AppendFormat t (bytes (cell w final) ++ [" "%byte])
                                          (timeFmt (cell w enc)))
                            (cell w final)) w).
Proof.
  intros Hne. unfold addTime. rewrite bind_load.
  destruct (String.eqb (timeFmt (cell w enc)) ""); [reflexivity|].
  run. reflexivity.
Qed.

Lemma addCaller_run enc final caller line (w : World) :
  addCaller enc final caller line w
  = (tt, set_cell final
           (with_bytes (bytes (cell w final) ++ bytes_of " ["
                          ++ bytes_of caller ++ [":"%byte]
                          ++ strconv.Itoa line ++ ["]"%byte])
                       (cell w final)) w).
Proof.
  unfold addCaller. run. unfold with_bytes; cbn [bytes timeFmt firstNested].
  rewrite strconv_AppendInt_Itoa, <- !app_assoc. reflexivity.
Qed.

Lemma addMessage_run enc final msg (w : World) :
  addMessage enc final msg w
  = (tt, set_cell final
           (with_bytes (bytes (cell w final) ++ [" "%byte] ++ bytes_of msg)
                       (cell w final)) w).
Proof.
  unfold addMessage. run. unfold with_bytes; cbn [bytes timeFmt firstNested].
  rewrite <- !app_assoc. reflexivity.
Qed.

Lemma WriteEntry_run enc (sink : io_Writer Ext) caller line msg lvl t
      (w : World) :
  got w ≠ enc ->
  let ln := rendered (cell w enc) caller line msg lvl t in
  WriteEntry enc sink caller line msg lvl t w
  = (write_result (fst (fst (sink ln (outside w))))
                  (snd (fst (sink ln (outside w)))) (len ln),
     after_WriteEntry w ln (snd (sink ln (outside w)))).
Proof.
  intros Hne ln. unfold WriteEntry, truncate.
  erewrite bind_run by apply Get_run.
  assert (Hc : cell (after_Get w) enc = cell w enc)
    by (apply cell_after_Get; congruence).
  assert (Hw : forall (A : Type) (k : (Z * option error) -> M A) bs w0,
             (call_Write sink bs ≫= k) w0
             = k (fst (sink bs (outside w0)))
                 (set_outside (snd (sink bs (outside w0))) w0)).
  { intros. unfold mbind, M_bind, call_Write.
    now destruct (sink bs (outside w0)) as [r o]. }
  rewrite bind_modify.
  erewrite bind_run by apply addLevel_run. wsimp.
  erewrite bind_run by (apply addTime_run; assumption). wsimp.
  rewrite Hc. subst ln. unfold rendered, after_WriteEntry.
  destruct (String.eqb (timeFmt (cell w enc)) "");
    (erewrite bind_run by apply addCaller_run); wsimp;
    (erewrite bind_run by apply addMessage_run); wsimp;
    rewrite bind_load; wsimp; rewrite Hc;
    destruct (0 <? len (bytes (cell w enc))); run; rewrite ?Hc;
    unfold with_bytes; cbn [bytes timeFmt firstNested];
    rewrite <- ?app_assoc; cbn [app].
  all: rewrite Hw; cbn [outside set_cell].
  all: rewrite outside_after_Get;
    destruct (sink _ (outside w)) as [[n err] o]; cbn [fst snd].
  all: unfold Free, textPool_Put, write_result, mbind, M_bind, mret, M_ret;
    cbn [pool set_outside set_cell].
  all: destruct err; [reflexivity|]; destruct (n =? _); reflexivity.
Qed.

(** *** Frames *)

Lemma touches_only_set_cell {A} kv (c : M A) :
  (forall w, exists e, snd (c w) = set_cell kv e w) -> touches_only kv c.
Proof.
  intros Hc w. destruct (Hc w) as [e ->]. cbn. repeat split.
  intros l Hl. now apply lookup_insert_ne.
Qed.

Lemma touches_only_bind {A B} kv (c : M A) (k : A -> M B) :
  touches_only kv c -> (forall a, touches_only kv (k a)) ->
  touches_only kv (c ≫= k).
Proof.
  intros Hc Hk w. unfold mbind, M_bind.
  specialize (Hc w). destruct (c w) as [a w1]. cbn [snd] in Hc.
  specialize (Hk a w1). destruct Hc as (Hn & Hp & Hh).
  destruct Hk as (Hn' & Hp' & Hh').
  repeat split; [congruence|congruence|].
  intros l Hl. rewrite Hh', Hh; auto.
Qed.

Lemma touches_only_ret {A} kv (a : A) : touches_only kv (mret a : M A).
Proof. intros w. cbn. auto. Qed.

Lemma touches_only_AddMarshaler kv key (obj : LogMarshaler Ext) :
  kv_only obj -> touches_only kv (AddMarshaler kv key obj).
Proof.
  intros Hobj w. rewrite AddMarshaler_run.
  specialize (Hobj kv (set_cell kv (open_cell key (cell w kv)) w)).
  destruct (obj kv _) as [err w2]. cbn [snd] in *.
  destruct Hobj as (Hn & Hp & Hh). cbn. repeat split; auto.
  intros l Hl. rewrite lookup_insert_ne by congruence.
  rewrite Hh by assumption. cbn. now apply lookup_insert_ne.
Qed.

Lemma touches_only_AddTo kv (f : Field Ext) :
  field_kv_only f -> touches_only kv (AddTo kv f).
Proof.
  destruct f; cbn [AddTo field_kv_only]; intros Hf.
  - apply touches_only_set_cell. intros w. rewrite AddString_run. eauto.
  - apply touches_only_set_cell. intros w. rewrite AddBool_run. eauto.
  - apply touches_only_set_cell. intros w. rewrite AddInt64_run. eauto.
  - apply touches_only_set_cell. intros w. rewrite AddUint64_run. eauto.
  - apply touches_only_set_cell. intros w. rewrite AddUintptr_run. eauto.
  - apply touches_only_set_cell. intros w. rewrite AddFloat64_run. eauto.
  - apply touches_only_bind; [now apply touches_only_AddMarshaler|].
    intros; apply touches_only_ret.
  - apply touches_only_set_cell. intros w. unfold AddObject, mbind, M_bind.
    rewrite AddString_run. cbn. eauto.
Qed.

Lemma touches_only_addFields kv (fields : list (Field Ext)) :
  Forall field_kv_only fields -> touches_only kv (addFields kv fields).
Proof.
  induction 1 as [|f fields Hf _ IH]; cbn [addFields].
  - apply touches_only_ret.
  - apply touches_only_bind; [now apply touches_only_AddTo|intros; exact IH].
Qed.

Lemma touches_only_run_steps kv (ss : list (step Ext)) :
  Forall step_kv_only ss -> touches_only kv (run_steps kv ss).
Proof.
  induction 1 as [|s ss Hs _ IH]; cbn [run_steps].
  - apply touches_only_ret.
  - apply touches_only_bind; [|intros; exact IH].
    destruct s as [f|g]; cbn [run_step].
    + now apply touches_only_AddTo.
    + apply touches_only_set_cell. intros w. rewrite modify_run. eauto.
Qed.

Lemma touches_only_cell {A} kv (c : M A) (w : World) l :
  touches_only kv c -> l ≠ kv -> cell (snd (c w)) l = cell w l.
Proof.
  intros Hc Hl. destruct (Hc w) as (_ & _ & Hh).
  unfold cell. rewrite !lookup_total_alt. now rewrite Hh.
Qed.

Lemma touches_only_live {A} kv (c : M A) (w : World) l :
  touches_only kv c -> live w l -> live (snd (c w)) l.
Proof.
  intros Hc. destruct (Hc w) as (Hn & Hp & _). unfold live.
  now rewrite Hn, Hp.
Qed.

(** *** The log call *)

Lemma live_set_cell (w : World) l l' e :
  live w l -> live (set_cell l' e w) l.
Proof. trivial. Qed.

Lemma logger_log_emits (log : Meta Ext) site now lvl' msg fields (w : World) :
  wf w -> live w (Encoder log) -> Forall field_kv_only fields ->
  lvl log <= lvl' ->
  let w2 := snd (addFields (got w) fields (snd (Clone (Encoder log) w))) in
  let ln := rendered (cell w2 (got w)) (fst site) (snd site) msg lvl' now in
  let r := Write (Output log) ln (outside w2) in
  outside (snd (logger_log log site now lvl' msg fields w))
  = report log (write_result (fst (fst r)) (snd (fst r)) (len ln)) (snd r).
Proof.
  intros Hwf Hlive Hfs Hle w2 ln r.
  unfold logger_log, Level_body. cbn [fst].
  replace (lvl' >=? lvl log) with true by lia. cbn [negb].
  pose proof (got_fresh _ _ Hlive) as Hne.
  assert (Hw2 : addFields (got w) fields (snd (Clone (Encoder log) w))
                = (tt, w2)).
  { subst w2. now destruct (addFields _ _ _) as [[] ?]. }
  assert (Hlive2 : live w2 (got w)).
  { subst w2.
    apply (touches_only_live (got w)); [now apply touches_only_addFields|].
    rewrite Clone_run by assumption. cbn [snd].
    apply live_set_cell. now apply got_live_after_Get. }
  rewrite Clone_run in Hw2 by assumption. cbn [snd] in Hw2.
  erewrite bind_run by (apply Clone_run; assumption).
  erewrite bind_run by exact Hw2.
  destruct site as [caller line]. cbn [fst snd] in ln.
  erewrite bind_run
    by (apply WriteEntry_run; apply got_fresh; exact Hlive2).
  fold ln. fold r.
  destruct (write_result _ _ _) as [e|]; [|reflexivity].
  unfold report, internalError, call_Write, call_Sync, Free, textPool_Put,
    mbind, M_bind, mret, M_ret.
  cbn [outside after_WriteEntry set_pool set_outside].
  destruct (Write (ErrorOutput log) _ _) as [r1 o1]; cbn.
  destruct (Sync (ErrorOutput log) o1) as [r2 o2]; reflexivity.
Qed.

End Runs.

(** ** The claims *)

Section Claims.
Context {Ext : Type} {levels : Levels} {timelib : TimeLib}.

Local Abbreviation World := (World Ext).

Lemma level_tag_Info :
  DebugLevel ≠ InfoLevel -> level_tag InfoLevel = ["I"%byte].
Proof.
  intros Hne. unfold level_tag.
  replace (InfoLevel =? DebugLevel) with false by lia.
  now rewrite Z.eqb_refl.
Qed.

Lemma call_result {A} (x : nat) (f : MetaMethod A) (vs : Vars Ext) :
  fst (call x f vs) = fst (f (var vs x)).
Proof.
  unfold call. cbn [var]. rewrite fn_lookup_insert.
  now destruct (f (var vs x)).
Qed.

Lemma call_leaves_vars {A} (x : nat) (f : MetaMethod A) (vs : Vars Ext)
      (y : nat) :
  (y < top vs)%nat -> var (snd (call x f vs)) y = var vs y.
Proof.
  intros Hy. unfold call. cbn [var]. rewrite fn_lookup_insert.
  destruct (f (var vs x)) as [a m']. cbn [snd var].
  rewrite !fn_lookup_insert_ne by lia. reflexivity.
Qed.

(** [SetLevel] through any variable changes what [Level] returns
    through no variable. *)
Lemma SetLevel_leaves_Level (x y : nat) (v : Level) (vs : Vars Ext) :
  (y < top vs)%nat ->
  fst (Meta_Level y (snd (Meta_SetLevel x v vs))) = fst (Meta_Level y vs).
Proof.
  intros Hy. unfold Meta_Level, Meta_SetLevel.
  rewrite !call_result, call_leaves_vars by assumption. reflexivity.
Qed.

(** C1. On a logger at [InfoLevel] whose encoder has no context and
    the RFC3339 time format, [Info("reqprice:", String("key","apple"),
    Int("price",100))] at 2024-01-01T00:00:00Z from file.go:42 calls
    [Write] of the output once, with the line
    [[I] 2024-01-01T00:00:00Z [file.go:42] reqprice: key=apple price=100]
    and its newline. *)
Theorem C1_info_line (dlogger : Meta Ext) (w : World) :
  DebugLevel ≠ InfoLevel ->
  wf w -> live w (Encoder dlogger) ->
  fst (Level_body dlogger) = InfoLevel ->
  bytes (cell w (Encoder dlogger)) = [] ->
  timeFmt (cell w (Encoder dlogger)) = RFC3339 ->
  let line :=
    bytes_of
      "[I] 2024-01-01T00:00:00Z [file.go:42] reqprice: key=apple price=100"
      ++ [x0a] in
  let r := Write (Output dlogger) line (outside w) in
  outside (snd (Info (timelib := go_time) dlogger ("file.go"%string, 42)
                     new_year_2024 "reqprice:"
                     [dlog_String "key" "apple"; dlog_Int "price" 100] w))
  = report dlogger (write_result (fst (fst r)) (snd (fst r)) (len line))
           (snd r).
Proof.
  intros Hlv Hwf Hlive Hlvl Hb Hfmt line r. unfold Info.
  rewrite logger_log_emits; try assumption.
  2: { repeat constructor. }
  2: { unfold Level_body in Hlvl; cbn [fst] in Hlvl. lia. }
  pose proof (got_fresh _ _ Hlive) as Hne.
  rewrite Clone_run by assumption. cbn [snd fst].
  unfold addFields, AddTo, dlog_String, dlog_Int, mbind, M_bind.
  rewrite AddString_run, AddInt64_run. cbn [mret M_ret snd].
  rewrite !set_cell_set_cell, !cell_set_cell_eq.
  cbn [outside set_cell]. rewrite outside_after_Get.
  assert (Hline : rendered (timelib := go_time)
            (field_cell "price" (strconv.Itoa 100)
               (field_cell "key" (bytes_of "apple")
                  (cell w (Encoder dlogger))))
            "file.go" 42 "reqprice:" InfoLevel new_year_2024 = line).
  { unfold rendered, field_cell, key_cell. cbn [bytes timeFmt firstNested].
    rewrite Hb, Hfmt, level_tag_Info by assumption.
    vm_compute. reflexivity. }
  rewrite Hline. reflexivity.
Qed.

(** C2 (what the code does). Take a [Meta] in the variable 0 and its
    [Clone] in the variable 1.  After [SetLevel(v)] through either
    variable, [Level()] through either variable still returns the
    level the [Meta] had: the store of [SetLevel] goes to the copy
    the method was called on. *)
Theorem C2_SetLevel_reaches_no_copy (m : Meta Ext) (w : World) (v : Level) :
  let vs := {| var := <[1%nat := fst (Meta_Clone m w)]> (fun _ => m);
               top := 2 |} in
  fst (Meta_Level 0 (snd (Meta_SetLevel 1 v vs))) = lvl m
  /\ fst (Meta_Level 1 (snd (Meta_SetLevel 1 v vs))) = lvl m
  /\ fst (Meta_Level 0 (snd (Meta_SetLevel 0 v vs))) = lvl m
  /\ fst (Meta_Level 1 (snd (Meta_SetLevel 0 v vs))) = lvl m.
Proof.
  intros vs.
  assert (Hv0 : fst (Meta_Level 0 vs) = lvl m).
  { unfold Meta_Level. rewrite call_result. reflexivity. }
  assert (Hv1 : fst (Meta_Level 1 vs) = lvl m).
  { unfold Meta_Level. rewrite call_result. cbn [var vs].
    rewrite fn_lookup_insert. unfold Meta_Clone, mbind, M_bind.
    now destruct (Clone (Encoder m) w). }
  rewrite !SetLevel_leaves_Level by (cbn; lia). auto.
Qed.

(** C3. A log call at level [L] on a logger whose level field holds
    the threshold [T]: when [L < T] the call returns with the state as
    it was (no encoder taken from the pool, nothing written); when
    [L >= T] the call writes one entry to the output, rendered at level
    [L] from the clone of the logger's encoder with the fields of the
    call. *)
Theorem C3_level_gate (log : Meta Ext) (site : string * Z) (now : Time)
        (L : Level) (msg : string) (fields : list (Field Ext)) (w : World) :
  wf w -> live w (Encoder log) -> Forall field_kv_only fields ->
  let T := lvl log in
  let w2 := snd (addFields (got w) fields (snd (Clone (Encoder log) w))) in
  let entry := rendered (cell w2 (got w)) (fst site) (snd site) msg L now in
  let r := Write (Output log) entry (outside w2) in
  (L < T -> logger_log log site now L msg fields w = (tt, w))
  /\ (L >= T ->
      outside (snd (logger_log log site now L msg fields w))
      = report log (write_result (fst (fst r)) (snd (fst r)) (len entry))
               (snd r)).
Proof.
  intros Hwf Hlive Hfs T w2 entry r. split.
  - intros Hlt. unfold logger_log, Level_body. cbn [fst]. fold T.
    replace (L >=? T) with false by lia. reflexivity.
  - intros Hge. apply logger_log_emits; try assumption.
    unfold T in Hge. lia.
Qed.

(** C4. When the sink reports fewer bytes than the length of the
    assembled entry and no error, [WriteEntry] returns the
    incomplete-write error made of the reported count and of the
    length of the entry; when the sink reports an error,
    [WriteEntry] returns that error. *)
Theorem C4_WriteEntry_errors (w : World) (enc : loc) (sink : io_Writer Ext)
        (caller : string) (line : Z) (msg : string) (lvl : Level)
        (t : Time) (n : Z) (err : option error) (o : Ext) :
  live w enc ->
  let entry := rendered (cell w enc) caller line msg lvl t in
  sink entry (outside w) = ((n, err), o) ->
  let result := fst (WriteEntry enc sink caller line msg lvl t w) in
  (err = None -> n < len entry ->
   result = Some (incomplete_write n (len entry)))
  /\ (forall e, err = Some e -> result = Some e).
Proof.
  intros Hlive entry Hsink result. subst result.
  rewrite WriteEntry_run by (now apply got_fresh). cbn [fst].
  fold entry. rewrite Hsink. cbn [fst snd]. unfold write_result. split.
  - intros -> Hlt. replace (n =? len entry) with false by lia. reflexivity.
  - now intros e ->.
Qed.

(** C5. [AddMarshaler(key, obj)] appends the key, ['='] and ['{'] (after
    the separating space [addKey] puts), runs the callback of [obj] on
    the encoder itself with the first-nested flag set, so that a first
    field added by the callback follows ['{'] with no space; once the
    callback is back it appends ['}'] and clears the flag, whatever
    the callback returned, and returns what the callback returned.  An
    object adding the string fields [a=1] and [b=2] renders as
    [key={a=1 b=2}]. *)
Theorem C5_AddMarshaler (w : World) (enc : loc) (key : string)
        (obj : LogMarshaler Ext) :
  let e0 := cell w enc in
  let sep := if (0 <? len (bytes e0)) && negb (firstNested e0)
             then [" "%byte] else [] in
  let given := {| bytes := bytes e0 ++ sep ++ bytes_of key ++ bytes_of "={";
                  timeFmt := timeFmt e0;
                  firstNested := true |} in
  let back := obj enc (set_cell enc given w) in
  AddMarshaler enc key obj w
  = (fst back,
     set_cell enc {| bytes := bytes (cell (snd back) enc) ++ bytes_of "}";
                     timeFmt := timeFmt (cell (snd back) enc);
                     firstNested := false |} (snd back))
  /\ (forall k v : string,
        bytes (cell (snd (AddString enc k v (set_cell enc given w))) enc)
        = bytes given ++ bytes_of k ++ bytes_of "=" ++ bytes_of v)
  /\ bytes (cell (snd (AddMarshaler enc "key" two_strings w)) enc)
     = bytes e0 ++ sep ++ bytes_of "key={a=1 b=2}".
Proof.
  intros e0 sep given back.
  assert (Hgiven : forall k, open_cell k e0
            = {| bytes := bytes e0 ++ sep ++ bytes_of k ++ bytes_of "={";
                 timeFmt := timeFmt e0; firstNested := true |}).
  { intros k. unfold open_cell, key_cell; cbn [bytes timeFmt].
    rewrite <- !app_assoc. reflexivity. }
  split; [|split].
  - rewrite AddMarshaler_run. fold e0. rewrite Hgiven.
    fold given. fold back. destruct back as [err w2]. reflexivity.
  - intros k v. rewrite AddString_run. cbn [snd].
    rewrite !cell_set_cell_eq. unfold field_cell, key_cell, given.
    cbn [bytes firstNested negb]. rewrite andb_false_r.
    rewrite <- !app_assoc. reflexivity.
  - rewrite AddMarshaler_run. fold e0. rewrite Hgiven.
    unfold two_strings, mbind, M_bind.
    rewrite !AddString_run. cbn [mret M_ret snd].
    rewrite !cell_set_cell_eq. unfold close_cell, field_cell, key_cell.
    cbn [bytes firstNested negb]. rewrite andb_false_r.
    assert (Hlen : (0 <? len (((bytes e0 ++ sep ++ bytes_of "key"
                                           ++ bytes_of "={")
                                 ++ [] ++ bytes_of "a" ++ ["="%byte])
                                ++ bytes_of "1")) = true).
    { apply Z.ltb_lt. unfold len. rewrite !length_app. cbn. lia. }
    rewrite Hlen. cbn [andb]. rewrite <- !app_assoc. reflexivity.
Qed.

(** C6. [Clone] returns an encoder other than the receiver, with the
    same buffer bytes and the same time format; whatever is done to
    the clone afterwards, field additions or changes of its fields,
    the buffer of the receiver stays as it was. *)
Theorem C6_Clone_is_independent (w : World) (enc : loc) (ss : list (step Ext)) :
  live w enc ->
  Forall step_kv_only ss ->
  let clone := fst (Clone enc w) in
  let w' := snd (Clone enc w) in
  clone ≠ enc
  /\ bytes (cell w' clone) = bytes (cell w enc)
  /\ timeFmt (cell w' clone) = timeFmt (cell w enc)
  /\ bytes (cell w' enc) = bytes (cell w enc)
  /\ bytes (cell (snd (run_steps clone ss w')) enc) = bytes (cell w enc).
Proof.
  intros Hlive Hss. pose proof (got_fresh _ _ Hlive) as Hne.
  rewrite Clone_run by assumption. cbn [fst snd].
  assert (Henc : cell (set_cell (got w) (cell w enc) (after_Get w)) enc
                 = cell w enc).
  { rewrite cell_set_cell_ne by assumption.
    apply cell_after_Get. congruence. }
  split; [assumption|]. rewrite cell_set_cell_eq.
  split; [reflexivity|]. split; [reflexivity|].
  split; [now rewrite Henc|].
  rewrite (touches_only_cell (got w)); [now rewrite Henc| |congruence].
  now apply touches_only_run_steps.
Qed.

(** C7. With the no-time option the encoder has the empty time
    format; for every encoder with the empty time format the entry
    written has no timestamp: the closing bracket of the level and
    the opening bracket of the caller are separated by one space. *)
Theorem C7_no_timestamp (w0 w : World) (enc : loc) (sink : io_Writer Ext)
        (caller : string) (line : Z) (msg : string) (lvl : Level)
        (t : Time) :
  live w enc ->
  timeFmt (cell w enc) = ""%string ->
  let entry :=
    bytes_of "[" ++ level_tag lvl ++ bytes_of "] [" ++ bytes_of caller
      ++ bytes_of ":" ++ strconv.Itoa line ++ bytes_of "] " ++ bytes_of msg
      ++ (if 0 <? len (bytes (cell w enc))
          then bytes_of " " ++ bytes (cell w enc) else [])
      ++ [x0a] in
  timeFmt (cell (snd (NewTextEncoder [TextNoTime] w0))
                (fst (NewTextEncoder [TextNoTime] w0))) = ""%string
  /\ WriteEntry enc sink caller line msg lvl t w
     = (write_result (fst (fst (sink entry (outside w))))
                     (snd (fst (sink entry (outside w)))) (len entry),
        after_WriteEntry w entry (snd (sink entry (outside w)))).
Proof.
  intros Hlive Hfmt entry. split.
  - unfold NewTextEncoder, truncate, TextNoTime, TextTimeFormat.
    erewrite bind_run by apply Get_run. cbn [apply_options].
    rewrite !bind_modify, bind_assoc, bind_modify, bind_ret.
    cbn [mret M_ret fst snd]. rewrite !set_cell_set_cell, !cell_set_cell_eq.
    reflexivity.
  - rewrite WriteEntry_run by (now apply got_fresh).
    assert (Hentry : rendered (cell w enc) caller line msg lvl t = entry).
    { unfold rendered, entry. rewrite Hfmt. cbn [String.eqb].
      destruct (0 <? len (bytes (cell w enc)));
        rewrite <- ?app_assoc; reflexivity. }
    rewrite Hentry. reflexivity.
Qed.

(** C8 (amended). When the callback of a marshaler returns an error,
    [AddMarshaler] returns that error to its caller and leaves the
    braces closed.  A later [WriteEntry] on that encoder writes the
    entry with the closed braces, and what it returns is decided by
    the answer of the sink alone: nothing when the sink takes the
    whole line. *)
Theorem C8_error_stays_with_AddMarshaler (w : World) (enc : loc)
        (key : string) (obj : LogMarshaler Ext) (e : error)
        (sink : io_Writer Ext) (caller : string) (line : Z) (msg : string)
        (lvl : Level) (t : Time) :
  live w enc -> kv_only obj ->
  fst (obj enc (set_cell enc (open_cell key (cell w enc)) w)) = Some e ->
  let w' := snd (AddMarshaler enc key obj w) in
  let entry := rendered (cell w' enc) caller line msg lvl t in
  let r := sink entry (outside w') in
  fst (AddMarshaler enc key obj w) = Some e
  /\ (exists inner, bytes (cell w' enc) = inner ++ bytes_of "}")
  /\ WriteEntry enc sink caller line msg lvl t w'
     = (write_result (fst (fst r)) (snd (fst r)) (len entry),
        after_WriteEntry w' entry (snd r))
  /\ (fst r = (len entry, None) ->
      fst (WriteEntry enc sink caller line msg lvl t w') = None).
Proof.
  intros Hlive Hobj Herr w' entry r.
  assert (Hlive' : live w' enc).
  { subst w'. apply (touches_only_live enc); [|assumption].
    now apply touches_only_AddMarshaler. }
  assert (Hrun : WriteEntry enc sink caller line msg lvl t w'
                 = (write_result (fst (fst r)) (snd (fst r)) (len entry),
                    after_WriteEntry w' entry (snd r))).
  { apply WriteEntry_run. now apply got_fresh. }
  split; [|split; [|split]].
  - rewrite AddMarshaler_run. destruct (obj enc _) as [err w2].
    cbn [fst] in *. assumption.
  - subst w'. rewrite AddMarshaler_run. destruct (obj enc _) as [err w2].
    cbn [snd]. rewrite cell_set_cell_eq. eexists. reflexivity.
  - exact Hrun.
  - intros Hr. rewrite Hrun, Hr. cbn [fst snd]. unfold write_result.
    now rewrite Z.eqb_refl.
Qed.

(** C9. On an empty encoder [AddFloat64("x", 1.5)] leaves the buffer
    [x=1.5], [AddUintptr("p", 0xFF)] leaves [p=0xff] and
    [AddInt64("n", -7)] leaves [n=-7].  Every [int64] is written in
    base 10: reading the digits back gives the integer.  Every
    [uintptr] is written as [0x] and lower-case hexadecimal digits that
    read back as the number.  Every finite float64 is written as a
    decimal that reads back as that float64 (it is nearer to it than to
    the float64 before and the one after, or half way with an even bit
    pattern); no decimal with a larger exponent reads back as it, and
    every decimal that does has as many digits or more; zero is written
    as [0] after its sign; the other bit patterns are written [NaN],
    [+Inf] and [-Inf]. *)
Theorem C9_number_formats (w : World) (enc : loc) :
  bytes (cell w enc) = [] ->
  bytes (cell (snd (AddFloat64 enc "x" one_and_a_half w)) enc)
  = bytes_of "x=1.5"
  /\ bytes (cell (snd (AddUintptr enc "p" 0xFF w)) enc) = bytes_of "p=0xff"
  /\ bytes (cell (snd (AddInt64 enc "n" (-7) w)) enc) = bytes_of "n=-7"
  /\ (forall (key : string) (n : Z),
        bytes (cell (snd (AddInt64 enc key n w)) enc)
        = bytes_of key ++ bytes_of "=" ++ strconv.Itoa n
        /\ Atoi (strconv.Itoa n) = n)
  /\ (forall (key : string) (u : Z),
        0 <= u ->
        exists hex,
          bytes (cell (snd (AddUintptr enc key u w)) enc)
          = bytes_of key ++ bytes_of "=0x" ++ hex
          /\ parse_hex hex = Some u)
  /\ (forall (key : string) (bits : Z),
        0 <= bits < 2 ^ 64 ->
        (bits / 2 ^ 52) mod 2 ^ 11 <> 2047 ->
        exists text,
          bytes (cell (snd (AddFloat64 enc key bits w)) enc)
          = bytes_of key ++ bytes_of "=" ++ text
          /\ let b := bits mod 2 ^ 63 in
             (b = 0 -> parse_decimal text = Some (2 ^ 63 <=? bits, 0, 0))
             /\ (0 < b ->
                 exists c q,
                   parse_decimal text
                   = Some (2 ^ 63 <=? bits,
                           fst (written c q), snd (written c q))
                   /\ reparses b c q = true
                   /\ (forall c' q', q < q' -> reparses b c' q' = false)
                   /\ forall c' q' j,
                       0 <= j -> reparses b c' q' = true ->
                       c' < 10 ^ j -> c < 10 ^ j))
  /\ (forall (key : string) (bits : Z),
        0 <= bits < 2 ^ 64 ->
        (bits / 2 ^ 52) mod 2 ^ 11 = 2047 ->
        bytes (cell (snd (AddFloat64 enc key bits w)) enc)
        = bytes_of key ++ bytes_of "="
            ++ bytes_of (if negb (bits mod 2 ^ 52 =? 0) then "NaN"
                         else if 2 ^ 63 <=? bits then "-Inf" else "+Inf")).
Proof.
  intros Hb.
  assert (Hkey : forall key v,
            bytes (field_cell key v (cell w enc))
            = bytes_of key ++ bytes_of "=" ++ v).
  { intros key v. unfold field_cell, key_cell. cbn [bytes]. rewrite Hb.
    cbn [len length Z.of_nat Z.ltb andb app]. rewrite <- ?app_assoc.
    reflexivity. }
  rewrite AddFloat64_run, AddUintptr_run, AddInt64_run. cbn [snd].
  rewrite !cell_set_cell_eq, !Hkey.
  split; [vm_compute; reflexivity|].
  split; [vm_compute; reflexivity|].
  split; [vm_compute; reflexivity|].
  split; [|split; [|split]].
  - intros key n. rewrite AddInt64_run. cbn [snd].
    rewrite cell_set_cell_eq, Hkey. split; [reflexivity|apply Atoi_Itoa].
  - intros key u Hu. exists (strconv.AppendUint [] u 16).
    rewrite AddUintptr_run. cbn [snd]. rewrite cell_set_cell_eq, Hkey.
    split; [reflexivity|now apply parse_hex_AppendUint].
  - intros key bits Hbits Hfin. exists (strconv.AppendFloat [] bits).
    rewrite AddFloat64_run. cbn [snd]. rewrite cell_set_cell_eq, Hkey.
    split; [reflexivity|]. now apply AppendFloat_reads_back.
  - intros key bits Hbits Hinf. rewrite AddFloat64_run. cbn [snd].
    rewrite cell_set_cell_eq, Hkey. do 2 f_equal.
    destruct (float64_fields bits Hbits) as (Hneg & Hexp & Hmant & _).
    unfold strconv.AppendFloat. rewrite Hneg, Hexp, Hmant, Hinf.
    reflexivity.
Qed.

(** C10. [WriteEntry] leaves its receiver as it was, whatever the sink
    answers: the buffer bytes, the time format and the first-nested
    flag are the same before and after, and the only encoder that
    changes is the final one taken from the pool. *)
Theorem C10_WriteEntry_frame (w : World) (enc : loc) (sink : io_Writer Ext)
        (caller : string) (line : Z) (msg : string) (lvl : Level)
        (t : Time) :
  live w enc ->
  let w' := snd (WriteEntry enc sink caller line msg lvl t w) in
  bytes (cell w' enc) = bytes (cell w enc)
  /\ timeFmt (cell w' enc) = timeFmt (cell w enc)
  /\ firstNested (cell w' enc) = firstNested (cell w enc)
  /\ forall l, l ≠ got w -> heap w' !! l = heap w !! l.
Proof.
  intros Hlive. pose proof (got_fresh _ _ Hlive) as Hne.
  rewrite WriteEntry_run by assumption. cbn [snd].
  assert (Hframe : forall l, l ≠ got w ->
            heap (after_WriteEntry w
                    (rendered (cell w enc) caller line msg lvl t)
                    (snd (sink (rendered (cell w enc) caller line msg lvl t)
                               (outside w)))) !! l
            = heap w !! l).
  { intros l Hl. unfold after_WriteEntry. cbn [heap set_pool set_outside].
    rewrite heap_set_cell_ne by congruence. now apply heap_after_Get. }
  assert (Hcell : cell (after_WriteEntry w
                    (rendered (cell w enc) caller line msg lvl t)
                    (snd (sink (rendered (cell w enc) caller line msg lvl t)
                               (outside w)))) enc = cell w enc).
  { unfold cell. rewrite !lookup_total_alt, Hframe by congruence.
    reflexivity. }
  rewrite Hcell. repeat split. exact Hframe.
Qed.

End Claims.

(** ** The claims at concrete inputs *)

Lemma wf_started : wf started.
Proof. vm_compute. split; constructor. Qed.

Lemma live_started : live started 0%nat.
Proof. vm_compute. split; [lia|apply not_elem_of_nil]. Qed.

Lemma wf_with_context : wf with_context.
Proof. vm_compute. split; constructor. Qed.

Lemma live_with_context : live with_context 0%nat.
Proof. vm_compute. split; [lia|apply not_elem_of_nil]. Qed.

(** C8 (as stated, refuted). A marshaler whose callback fails is added
    to a live encoder; the sink takes the whole line; [WriteEntry]
    returns no error. *)
Lemma C8_counterexample :
  ~ (forall (w : World Files) (enc : loc) (key : string)
            (obj : LogMarshaler Files) (e : error) (sink : io_Writer Files)
            (caller : string) (line : Z) (msg : string) (lvl : Level)
            (t : time.Time),
        wf w -> live w enc ->
        fst (AddMarshaler enc key obj w) = Some e ->
        fst (WriteEntry (levels := example_levels)
                        (timelib := go_time)
                        enc sink caller line msg lvl t
                        (snd (AddMarshaler enc key obj w))) = Some e).
Proof.
  intros Hclaim.
  specialize (Hclaim started 0%nat "obj"%string failing "boom"%string
                     (Write file_sink) "file.go"%string 42 "msg"%string
                     0 new_year_2024 wf_started live_started).
  vm_compute in Hclaim. specialize (Hclaim eq_refl). discriminate Hclaim.
Qed.

Lemma live_started_no_time : live started_no_time 0%nat.
Proof. vm_compute. split; [lia|apply not_elem_of_nil]. Qed.

Lemma kv_only_failing : kv_only (failing (Ext := Files)).
Proof.
  intros kv. unfold failing. apply touches_only_bind.
  - apply touches_only_set_cell. intros w. rewrite AddString_run. eauto.
  - intros; apply touches_only_ret.
Qed.

(** C1 at the logger [Init] makes, writing to a file that keeps the
    calls of [Write]. *)
Lemma C1_witness :
  outside (snd (Info (levels := example_levels)
                     (timelib := go_time) dlogger0
                     ("file.go"%string, 42) new_year_2024 "reqprice:"
                     [dlog_String "key" "apple"; dlog_Int "price" 100]
                     started))
  = ([line
        "[I] 2024-01-01T00:00:00Z [file.go:42] reqprice: key=apple price=100"],
     []).
Proof.
  rewrite (C1_info_line (levels := example_levels) dlogger0 started).
  - vm_compute. reflexivity.
  - vm_compute. discriminate.
  - exact wf_started.
  - exact live_started.
  - reflexivity.
  - reflexivity.
  - reflexivity.
Defined.

(** C3 on the logger of [Init] with the threshold 1: a call at level 0
    does nothing; a call at level 1 and a call at the custom level 7
    write one entry each. *)
Lemma C3_witness :
  logger_log (levels := example_levels)
             (timelib := go_time) warn_logger
             ("file.go"%string, 42) new_year_2024 0 "m"
             [dlog_String "k" "v"] started
  = (tt, started)
  /\ outside (snd (logger_log (levels := example_levels)
                              (timelib := go_time) warn_logger
                     ("file.go"%string, 42) new_year_2024 1 "m"
                     [dlog_String "k" "v"] started))
     = ([line "[W] 2024-01-01T00:00:00Z [file.go:42] m k=v"], [])
  /\ outside (snd (logger_log (levels := example_levels)
                              (timelib := go_time) warn_logger
                     ("file.go"%string, 42) new_year_2024 7 "m"
                     [dlog_String "k" "v"] started))
     = ([line "[7] 2024-01-01T00:00:00Z [file.go:42] m k=v"], []).
Proof.
  split; [|split].
  - apply (C3_level_gate (levels := example_levels)
                         (timelib := go_time) warn_logger
             ("file.go"%string, 42) new_year_2024 0 "m"
             [dlog_String "k" "v"] started
             wf_started live_started).
    + repeat constructor.
    + vm_compute. reflexivity.
  - rewrite (proj2 (C3_level_gate (levels := example_levels)
                                  (timelib := go_time)
                      warn_logger ("file.go"%string, 42) new_year_2024 1 "m"
                      [dlog_String "k" "v"] started
                      wf_started live_started
                      ltac:(repeat constructor))).
    + vm_compute. reflexivity.
    + vm_compute. discriminate.
  - rewrite (proj2 (C3_level_gate (levels := example_levels)
                                  (timelib := go_time)
                      warn_logger ("file.go"%string, 42) new_year_2024 7 "m"
                      [dlog_String "k" "v"] started
                      wf_started live_started
                      ltac:(repeat constructor))).
    + vm_compute. reflexivity.
    + vm_compute. discriminate.
Defined.

(** C4 with a sink that drops the last byte, and with a sink that
    fails. *)
Lemma C4_witness :
  fst (WriteEntry (levels := example_levels)
                  (timelib := go_time) 0%nat
                  (Write short_sink) "file.go" 42 "m" 0 new_year_2024 started)
  = Some "incomplete write: only wrote 39 of 40 bytes"%string
  /\ fst (WriteEntry (levels := example_levels)
                     (timelib := go_time) 0%nat
                     (Write broken_sink) "file.go" 42 "m" 0 new_year_2024
                     started)
     = Some "disk full"%string.
Proof.
  split.
  - rewrite (proj1 (C4_WriteEntry_errors (levels := example_levels)
                                         (timelib := go_time)
                      started 0%nat (Write short_sink) "file.go" 42 "m" 0
                      new_year_2024 39 None _ live_started eq_refl)).
    + vm_compute. reflexivity.
    + reflexivity.
    + vm_compute. reflexivity.
  - apply (proj2 (C4_WriteEntry_errors (levels := example_levels)
                                       (timelib := go_time)
                    started 0%nat (Write broken_sink) "file.go" 42 "m" 0
                    new_year_2024 0 (Some "disk full"%string) _
                    live_started eq_refl)).
    reflexivity.
Defined.

(** C6 on an encoder that holds [k=v]: the clone holds [k=v] too; the
    clone then gets the field [a=b], the receiver does not. *)
Lemma C6_witness :
  let ss := [Add (dlog_String "a" "b")] in
  let clone := fst (Clone 0%nat with_context) in
  let w' := snd (Clone 0%nat with_context) in
  clone ≠ 0%nat
  /\ bytes (cell w' clone) = bytes_of "k=v"
  /\ timeFmt (cell w' clone) = RFC3339
  /\ bytes (cell w' 0%nat) = bytes_of "k=v"
  /\ bytes (cell (snd (run_steps clone ss w')) clone) = bytes_of "k=v a=b"
  /\ bytes (cell (snd (run_steps clone ss w')) 0%nat) = bytes_of "k=v".
Proof.
  intros ss clone w'.
  destruct (C6_Clone_is_independent with_context 0%nat ss live_with_context
              ltac:(repeat constructor))
    as (Hne & Hcopy & Hfmt & Hkept & Hafter).
  split; [exact Hne|]. split; [exact Hcopy|]. split; [exact Hfmt|].
  split; [exact Hkept|]. split; [vm_compute; reflexivity|exact Hafter].
Defined.

(** C7 on an encoder made with the no-time option. *)
Lemma C7_witness :
  timeFmt (cell started_no_time 0%nat) = ""%string
  /\ outside (snd (WriteEntry (levels := example_levels)
                              (timelib := go_time) 0%nat
                     (Write file_sink) "file.go" 42 "m" 0 new_year_2024
                     started_no_time))
     = ([line "[I] [file.go:42] m"], []).
Proof.
  split.
  - apply (C7_no_timestamp (Ext := Files) (levels := example_levels)
                                          (timelib := go_time)
             (boot ([], [])) started_no_time 0%nat (Write file_sink)
             "file.go" 42 "m" 0 new_year_2024 live_started_no_time eq_refl).
  - rewrite (proj2 (C7_no_timestamp (Ext := Files) (levels := example_levels)
                                                   (timelib := go_time)
               (boot ([], [])) started_no_time 0%nat (Write file_sink)
               "file.go" 42 "m" 0 new_year_2024 live_started_no_time eq_refl)).
    vm_compute. reflexivity.
Defined.

(** C8 (amended) with a marshaler that fails and a file that takes the
    whole line. *)
Lemma C8_witness :
  fst (AddMarshaler 0%nat "obj" failing started) = Some "boom"%string
  /\ fst (WriteEntry (levels := example_levels)
                     (timelib := go_time) 0%nat
                     (Write file_sink) "file.go" 42 "m" 0 new_year_2024
                     (snd (AddMarshaler 0%nat "obj" failing started)))
     = None.
Proof.
  pose proof (C8_error_stays_with_AddMarshaler
                (levels := example_levels)
                (timelib := go_time)
                started 0%nat "obj" failing "boom"%string (Write file_sink)
                "file.go" 42 "m" 0 new_year_2024
                live_started kv_only_failing eq_refl)
    as (Hadd & _ & _ & Hwrite).
  split; [exact Hadd|]. apply Hwrite. vm_compute. reflexivity.
Defined.

(** C9 on the empty encoder of [Init]: the three buffers, the digits
    of [0xABCDEF], and the float64 nearest to pi, whose sixteen digits
    read back as it while no decimal with a larger exponent, and none
    with fewer digits, does. *)
Lemma C9_witness :
  bytes (cell (snd (AddFloat64 0%nat "x" one_and_a_half started)) 0%nat)
  = bytes_of "x=1.5"
  /\ bytes (cell (snd (AddUintptr 0%nat "p" 0xFF started)) 0%nat)
     = bytes_of "p=0xff"
  /\ bytes (cell (snd (AddInt64 0%nat "n" (-7) started)) 0%nat)
     = bytes_of "n=-7"
  /\ bytes (cell (snd (AddUintptr 0%nat "p" 0xABCDEF started)) 0%nat)
     = bytes_of "p=0xabcdef"
  /\ parse_hex (bytes_of "abcdef") = Some 0xABCDEF
  /\ bytes (cell (snd (AddFloat64 0%nat "pi" pi_bits started)) 0%nat)
     = bytes_of "pi=3.141592653589793"
  /\ reparses pi_bits 3141592653589793 (-15) = true
  /\ (forall c q, -15 < q -> reparses pi_bits c q = false)
  /\ forall c q j,
      0 <= j -> reparses pi_bits c q = true -> c < 10 ^ j ->
      3141592653589793 < 10 ^ j.
Proof.
  destruct (C9_number_formats started 0%nat eq_refl)
    as (Hx & Hp & Hn & _ & Hhex & Hfloat & _).
  split; [exact Hx|]. split; [exact Hp|]. split; [exact Hn|].
  destruct (Hhex "p"%string 0xABCDEF ltac:(lia)) as (hex & Hbytes & Hhexp).
  assert (Hh : hex = bytes_of "abcdef").
  { vm_compute in Hbytes. injection Hbytes as <-. reflexivity. }
  rewrite Hh in Hhexp.
  split; [vm_compute; reflexivity|]. split; [exact Hhexp|].
  destruct (Hfloat "pi"%string pi_bits ltac:(vm_compute; split; congruence)
              ltac:(vm_compute; congruence))
    as (text & Htext & _ & Hpos).
  destruct (Hpos eq_refl) as (c & q & Hparse & Hin & Hshort & Hfew).
  assert (Hpi : text = bytes_of "3.141592653589793").
  { vm_compute in Htext. injection Htext as <-. reflexivity. }
  assert (Hread : parse_decimal (bytes_of "3.141592653589793")
                  = Some (false, 3141592653589793, 15))
    by (vm_compute; reflexivity).
  rewrite Hpi, Hread in Hparse.
  assert (Hcq : c = 3141592653589793 /\ q = -15).
  { unfold written in Hparse. destruct (0 <=? q) eqn:E; cbn [fst snd] in Hparse.
    - discriminate Hparse.
    - injection Hparse as Hc Hq. lia. }
  destruct Hcq as [-> ->].
  split; [vm_compute; reflexivity|]. split; [exact Hin|].
  split; [exact Hshort|exact Hfew].
Defined.

(** C10 on an encoder that holds [k=v], with a file that takes the
    whole line, one that drops the last byte and one that fails: the
    line carries the context, and the encoder holds it afterwards. *)
Lemma C10_witness :
  let after sink :=
    snd (WriteEntry (levels := example_levels) (timelib := go_time) 0%nat
           (Write sink) "file.go" 42 "m" 0 new_year_2024 with_context) in
  let kept w' :=
    bytes (cell w' 0%nat) = bytes_of "k=v"
    /\ timeFmt (cell w' 0%nat) = RFC3339
    /\ firstNested (cell w' 0%nat) = false in
  kept (after file_sink) /\ kept (after short_sink)
  /\ kept (after broken_sink)
  /\ outside (after file_sink)
     = ([line "[I] 2024-01-01T00:00:00Z [file.go:42] m k=v"], []).
Proof.
  intros after kept.
  assert (H : forall sink, kept (after sink)).
  { intros sink.
    destruct (C10_WriteEntry_frame (levels := example_levels)
                (timelib := go_time) with_context 0%nat (Write sink)
                "file.go" 42 "m" 0 new_year_2024 live_with_context)
      as (Hb & Ht & Hf & _).
    exact (conj Hb (conj Ht Hf)). }
  split; [apply H|]. split; [apply H|]. split; [apply H|].
  vm_compute. reflexivity.
Defined.

(** ** Further properties *)

Lemma bytes_of_append (s1 s2 : string) :
  bytes_of (String.append s1 s2) = bytes_of s1 ++ bytes_of s2.
Proof.
  unfold bytes_of, list_byte_of_string.
  induction s1 as [|a s1 IH]; [reflexivity|].
  change (String.append (String a s1) s2)
    with (String a (String.append s1 s2)).
  cbn [list_ascii_of_string map app]. f_equal. exact IH.
Qed.

Lemma bytes_of_string_of_list_byte (b : list byte) :
  bytes_of (string_of_list_byte b) = b.
Proof. apply list_byte_of_string_of_list_byte. Qed.

Lemma inner_render_all (cs : list kv_call) :
  forall space,
    (fix all (space : bool) (cs : list kv_call) : list byte :=
       match cs with
       | [] => []
       | c' :: rest => spaced space (render c') ++ all true rest
       end) space cs
    = render_all space cs.
Proof.
  induction cs as [|c cs IH]; intros space; cbn [render_all];
    [reflexivity|]. now rewrite IH.
Qed.

Lemma render_marshaler (key : string) (body : list kv_call)
      (err : option error) :
  render (PutMarshaler key body err)
  = bytes_of key ++ bytes_of "={" ++ render_all false body ++ bytes_of "}".
Proof. cbn [render]. now rewrite inner_render_all. Qed.

Lemma render_nonempty (c : kv_call) : 0 < len (render c).
Proof.
  destruct c; cbn [render]; unfold len; rewrite !length_app; cbn; lia.
Qed.

Section Calls.
Context {Ext : Type}.

Local Abbreviation World := (World Ext).
Local Abbreviation M := (M Ext).

(** What a call makes of an encoder. *)
Lemma key_cell_spaced (key : string) (e : textEncoder) :
  bytes (key_cell key e)
  = bytes e ++ spaced (wants_space e) (bytes_of key ++ bytes_of "=").
Proof.
  unfold key_cell, wants_space, spaced. cbn [bytes].
  destruct ((0 <? len (bytes e)) && negb (firstNested e)); reflexivity.
Qed.

Lemma spaced_app (space : bool) (b1 b2 : list byte) :
  spaced space b1 ++ b2 = spaced space (b1 ++ b2).
Proof. now destruct space. Qed.

Lemma put_run (enc : loc) (key : string) (v : value) (w : World) :
  put enc key v w
  = (tt, set_cell enc (field_cell key (render_value v) (cell w enc)) w).
Proof.
  destruct v; cbn [put render_value]; unfold AddInt, AddUint.
  - apply AddString_run.
  - apply AddBool_run.
  - apply AddInt64_run.
  - apply AddInt64_run.
  - apply AddUint64_run.
  - apply AddUint64_run.
  - apply AddUintptr_run.
  - apply AddFloat64_run.
Qed.

Lemma inner_calls_invoke_all (kv : loc) (body : list kv_call) :
  (fix calls (cs : list kv_call) : M unit :=
     match cs with
     | [] => mret tt
     | c' :: rest => invoke kv c';; calls rest
     end) body
  = invoke_all kv body.
Proof. induction body as [|c body IH]; cbn; [reflexivity|]. now rewrite IH. Qed.

Lemma wants_space_called (c : kv_call) (e : textEncoder) :
  wants_space (called c e) = true.
Proof.
  unfold wants_space, called. cbn [bytes firstNested negb].
  rewrite andb_true_r. apply Z.ltb_lt.
  pose proof (render_nonempty c). unfold len in *.
  rewrite length_app. destruct (wants_space e); cbn [spaced length] in *; lia.
Qed.

Lemma invoke_all_step (enc : loc) (cs : list kv_call) (w : World) :
  (forall c, In c cs -> forall w' : World,
       invoke enc c w'
       = (returned c, set_cell enc (called c (cell w' enc)) w')) ->
  invoke_all enc cs w
  = (tt, match cs with
         | [] => w
         | _ => set_cell enc (called_all cs (cell w enc)) w
         end).
Proof.
  revert w. induction cs as [|c cs IH]; intros w Hcs; [reflexivity|].
  cbn [invoke_all]. erewrite bind_run by (apply Hcs; now left).
  rewrite IH by (intros c' Hin; apply Hcs; now right).
  f_equal. destruct cs as [|c2 cs].
  - f_equal. unfold called_all, called. cbn [render_all].
    now rewrite app_nil_r.
  - rewrite set_cell_set_cell, cell_set_cell_eq. f_equal.
    unfold called_all. rewrite wants_space_called.
    unfold called at 1 2. cbn [bytes timeFmt].
    cbn [render_all]. now rewrite <- app_assoc.
Qed.

Lemma invoke_run (c : kv_call) :
  forall (enc : loc) (w : World),
    invoke enc c w = (returned c, set_cell enc (called c (cell w enc)) w).
Proof.
  induction c as [key v|key s|key body err IH] using kv_call_nested_ind;
    intros enc w.
  - cbn [invoke returned]. erewrite bind_run by apply put_run.
    cbn [mret M_ret]. do 2 f_equal. unfold called, field_cell.
    cbn [render]. rewrite key_cell_spaced, <- app_assoc, spaced_app.
    now rewrite <- app_assoc.
  - cbn [invoke returned]. unfold AddObject.
    erewrite bind_run by apply AddString_run.
    cbn [mret M_ret]. do 2 f_equal. unfold called, field_cell.
    cbn [render]. rewrite key_cell_spaced, <- app_assoc, spaced_app.
    now rewrite <- app_assoc.
  - cbn [invoke returned]. rewrite AddMarshaler_run.
    rewrite inner_calls_invoke_all.
    unfold mbind at 1, M_bind at 1.
    rewrite invoke_all_step.
    2: { intros c' Hin w'. rewrite List.Forall_forall in IH. now apply IH. }
    cbn [mret M_ret]. f_equal.
    assert (Hopen : wants_space (open_cell key (cell w enc)) = false).
    { unfold wants_space, open_cell. cbn [firstNested negb].
      apply andb_false_r. }
    destruct body as [|c body].
    + rewrite cell_set_cell_eq, set_cell_set_cell. f_equal.
      unfold called, close_cell, open_cell. rewrite render_marshaler.
      cbn [bytes timeFmt render_all].
      rewrite key_cell_spaced, <- !app_assoc, !spaced_app.
      now rewrite <- !app_assoc.
    + rewrite cell_set_cell_eq, !set_cell_set_cell, cell_set_cell_eq. f_equal.
      unfold called, close_cell, called_all. rewrite Hopen, render_marshaler.
      unfold open_cell. cbn [bytes timeFmt].
      rewrite key_cell_spaced, <- !app_assoc, !spaced_app.
      now rewrite <- !app_assoc.
Qed.

End Calls.

Section Pool.
Context {Ext : Type} {levels : Levels} {timelib : TimeLib}.

Local Abbreviation World := (World Ext).
Local Abbreviation M := (M Ext).

Ltac norm_cells :=
  repeat first
    [ rewrite cell_set_cell_eq
    | rewrite set_cell_set_cell
    | rewrite cell_set_cell_ne by (assumption || congruence) ].

Ltac steps :=
  repeat first
    [ rewrite bind_assoc
    | rewrite bind_load
    | rewrite bind_modify
    | rewrite bind_append
    | rewrite bind_ret
    | rewrite modify_run
    | rewrite append_run
    | progress norm_cells ].

Lemma got_set_cell (w : World) l e : got (set_cell l e w) = got w.
Proof. reflexivity. Qed.

Lemma rendered_header (e : textEncoder) caller line msg lvl t :
  rendered e caller line msg lvl t
  = header (timeFmt e) caller line msg lvl t
      ++ (if 0 <? len (bytes e) then " "%byte :: bytes e else [])
      ++ [x0a].
Proof.
  unfold rendered, header.
  destruct (0 <? len (bytes e)); rewrite <- ?app_assoc; cbn [app];
    rewrite ?app_nil_r; reflexivity.
Qed.

Lemma header_nonempty fmt caller line msg lvl t :
  0 < len (header fmt caller line msg lvl t).
Proof. unfold header, len. rewrite !length_app. cbn. lia. Qed.

(** The state after [WriteEntry], for an encoder in use. *)
Lemma wf_after_WriteEntry (w : World) ln o :
  wf w -> wf (after_WriteEntry w ln o).
Proof.
  intros Hwf. pose proof (got_live_after_Get w Hwf) as [Hlt Hni].
  destruct (wf_after_Get w Hwf) as [Hnd Hall].
  unfold wf, after_WriteEntry. cbn [pool next set_pool set_outside set_cell].
  split; constructor; assumption.
Qed.

Lemma live_after_WriteEntry (w : World) ln o l :
  live w l -> live (after_WriteEntry w ln o) l.
Proof.
  intros Hl. pose proof (got_fresh w l Hl) as Hne.
  destruct (live_after_Get w l Hl) as [Hlt Hni].
  unfold live, after_WriteEntry. cbn [pool next set_pool set_outside set_cell].
  split; [assumption|]. rewrite not_elem_of_cons. split; congruence.
Qed.

(** The state after a log call that passes the gate. *)
Lemma logger_log_run (log : Meta Ext) site now lvl' msg fields (w : World) :
  wf w -> live w (Encoder log) -> Forall field_kv_only fields ->
  lvl log <= lvl' ->
  let w2 := snd (addFields (got w) fields (snd (Clone (Encoder log) w))) in
  let ln := rendered (cell w2 (got w)) (fst site) (snd site) msg lvl' now in
  let r := Write (Output log) ln (outside w2) in
  let o := report log (write_result (fst (fst r)) (snd (fst r)) (len ln))
                  (snd r) in
  logger_log log site now lvl' msg fields w
  = (tt, set_pool (got w :: got w2 :: pool (after_Get w2))
           (set_outside o
              (set_cell (got w2) (with_bytes ln (cell (after_Get w2) (got w2)))
                        (after_Get w2)))).
Proof.
  intros Hwf Hlive Hfs Hle w2 ln r o.
  unfold logger_log, Level_body. cbn [fst].
  replace (lvl' >=? lvl log) with true by lia. cbn [negb].
  pose proof (got_fresh _ _ Hlive) as Hne.
  assert (Hw2 : addFields (got w) fields (snd (Clone (Encoder log) w))
                = (tt, w2)).
  { subst w2. now destruct (addFields _ _ _) as [[] ?]. }
  assert (Hlive2 : live w2 (got w)).
  { subst w2.
    apply (touches_only_live (got w)); [now apply touches_only_addFields|].
    rewrite Clone_run by assumption. cbn [snd].
    apply live_set_cell. now apply got_live_after_Get. }
  rewrite Clone_run in Hw2 by assumption. cbn [snd] in Hw2.
  erewrite bind_run by (apply Clone_run; assumption).
  erewrite bind_run by exact Hw2.
  destruct site as [caller line]. cbn [fst snd] in ln.
  erewrite bind_run
    by (apply WriteEntry_run; apply got_fresh; exact Hlive2).
  fold ln. fold r. subst o.
  destruct (write_result _ _ _) as [e|]; [|reflexivity].
  unfold report, internalError, call_Write, call_Sync, Free, textPool_Put,
    mbind, M_bind, mret, M_ret.
  cbn [outside after_WriteEntry set_pool set_outside].
  destruct (Write (ErrorOutput log) _ _) as [r1 o1]; cbn.
  destruct (Sync (ErrorOutput log) o1) as [r2 o2]; reflexivity.
Qed.

(** [Clone] and [WriteEntry] on an encoder that was freed and is the
    next one the pool hands out. *)
Lemma Clone_freed_run (enc : loc) (free : list loc) (w : World) :
  pool w = enc :: free ->
  Clone enc w
  = (enc, set_cell enc (with_bytes [] (cell w enc)) (set_pool free w)).
Proof.
  intros Hp. unfold Clone, truncate, textPool_Get, mbind at 1, M_bind at 1.
  rewrite Hp. steps. cbn [mret M_ret].
  change (cell (set_pool free w) enc) with (cell w enc).
  destruct (cell w enc); reflexivity.
Qed.

Lemma addTime_same_run (enc : loc) t (w : World) :
  addTime enc enc t w
  = (tt, if String.eqb (timeFmt (cell w enc)) "" then w
         else set_cell enc
                (with_bytes (AppendFormat t (bytes (cell w enc) ++ [" "%byte])
                                          (timeFmt (cell w enc)))
                            (cell w enc)) w).
Proof.
  unfold addTime. rewrite bind_load.
  destruct (String.eqb (timeFmt (cell w enc)) ""); [reflexivity|].
  steps. reflexivity.
Qed.

Lemma WriteEntry_freed_run (enc : loc) (free : list loc)
      (sink : io_Writer Ext) caller line msg lvl t (w : World) :
  pool w = enc :: free ->
  let h := header (timeFmt (cell w enc)) caller line msg lvl t in
  let ln := (h ++ [" "%byte]) ++ (h ++ [" "%byte]) ++ [x0a] in
  WriteEntry enc sink caller line msg lvl t w
  = (write_result (fst (fst (sink ln (outside w))))
                  (snd (fst (sink ln (outside w)))) (len ln),
     set_pool (enc :: free)
       (set_outside (snd (sink ln (outside w)))
          (set_cell enc (with_bytes ln (cell w enc)) w))).
Proof.
  intros Hp h ln.
  assert (Hw : forall (A : Type) (k : (Z * option error) -> M A) bs w0,
             (call_Write sink bs ≫= k) w0
             = k (fst (sink bs (outside w0)))
                 (set_outside (snd (sink bs (outside w0))) w0)).
  { intros. unfold mbind, M_bind, call_Write.
    now destruct (sink bs (outside w0)) as [r o]. }
  unfold WriteEntry, truncate, textPool_Get, mbind at 1, M_bind at 1.
  rewrite Hp. rewrite bind_modify.
  change (cell (set_pool free w) enc) with (cell w enc).
  erewrite bind_run by apply addLevel_run. norm_cells.
  erewrite bind_run by apply addTime_same_run. norm_cells.
  subst ln h. unfold header, with_bytes. cbn [timeFmt bytes firstNested].
  destruct (String.eqb (timeFmt (cell w enc)) "");
    (erewrite bind_run by apply addCaller_run); norm_cells;
    (erewrite bind_run by apply addMessage_run); norm_cells;
    rewrite bind_load; norm_cells;
    unfold with_bytes; cbn [bytes timeFmt firstNested].
  all: match goal with
       | |- context [0 <? len ?b] =>
           replace (0 <? len b) with true
             by (symmetry; apply Z.ltb_lt; unfold len;
                 rewrite !length_app; cbn; lia)
       end.
  all: steps; unfold with_bytes; cbn [bytes timeFmt firstNested].
  all: rewrite Hw; cbn [outside set_cell set_pool].
  all: rewrite <- ?app_assoc; cbn [app].
  all: destruct (sink _ (outside w)) as [[n err] o]; cbn [fst snd].
  all: unfold Free, textPool_Put, write_result, mbind, M_bind, mret, M_ret;
    cbn [pool set_outside set_cell set_pool].
  all: destruct err; [reflexivity|]; destruct (n =? _); reflexivity.
Qed.

End Pool.

Section Further.
Context {Ext : Type} {levels : Levels} {timelib : TimeLib}.

Local Abbreviation World := (World Ext).
Local Abbreviation M := (M Ext).

(** X1. Calls on the key/value methods of an encoder, nested marshalers
    included, append their text in the order of the calls: [key=value]
    for a scalar, [key={...}] around the calls of a marshaler, one
    space between two calls and none after ['{'] or at the start of an
    empty buffer.  The time format is kept, the first-nested flag is
    clear after a call, and nothing else of the state changes. *)
Theorem X1_calls_render (enc : loc) (cs : list kv_call) (w : World) :
  let e := cell w enc in
  let w' := snd (invoke_all enc cs w) in
  bytes (cell w' enc) = bytes e ++ render_all (wants_space e) cs
  /\ timeFmt (cell w' enc) = timeFmt e
  /\ firstNested (cell w' enc)
     = match cs with [] => firstNested e | _ => false end
  /\ (forall l, l ≠ enc -> heap w' !! l = heap w !! l)
  /\ pool w' = pool w /\ next w' = next w /\ outside w' = outside w.
Proof.
  intros e w'. subst w'.
  rewrite invoke_all_step by (intros c _ w0; apply invoke_run). cbn [snd].
  destruct cs as [|c cs].
  - cbn [render_all]. rewrite app_nil_r. repeat split.
  - rewrite cell_set_cell_eq. cbn [called_all bytes timeFmt firstNested].
    repeat split. intros l Hl. now apply heap_set_cell_ne.
Qed.

(** X2. For an encoder in use, [WriteEntry] returns no error exactly
    when the sink reports no error and a count equal to the length of
    the entry: a count above the length is an incomplete write as
    well. *)
Theorem X2_WriteEntry_nil_iff (w : World) (enc : loc) (sink : io_Writer Ext)
        (caller : string) (line : Z) (msg : string) (lvl : Level) (t : Time) :
  live w enc ->
  let entry := rendered (cell w enc) caller line msg lvl t in
  let r := sink entry (outside w) in
  fst (WriteEntry enc sink caller line msg lvl t w) = None
  <-> snd (fst r) = None /\ fst (fst r) = len entry.
Proof.
  intros Hlive entry r.
  rewrite WriteEntry_run by (now apply got_fresh). cbn [fst].
  fold entry. fold r. unfold write_result.
  destruct (snd (fst r)) as [e|]; [split; [discriminate|intros [? _]; discriminate]|].
  destruct (fst (fst r) =? len entry) eqn:E.
  - apply Z.eqb_eq in E. tauto.
  - apply Z.eqb_neq in E. split; [discriminate|]. intros [_ ?]. contradiction.
Qed.

(** X3. [WriteEntry] gives the final encoder back to the pool whatever
    the sink answers: the free list stays well formed, its head is the
    encoder that was taken, every encoder in use is still in use, and
    at most one encoder is allocated. *)
Theorem X3_WriteEntry_pool (w : World) (enc : loc) (sink : io_Writer Ext)
        (caller : string) (line : Z) (msg : string) (lvl : Level) (t : Time) :
  wf w -> live w enc ->
  let w' := snd (WriteEntry enc sink caller line msg lvl t w) in
  wf w'
  /\ pool w' = got w :: tail (pool w)
  /\ (forall l, live w l -> live w' l)
  /\ (next w <= next w' <= S (next w))%nat.
Proof.
  intros Hwf Hlive w'. subst w'.
  rewrite WriteEntry_run by (now apply got_fresh). cbn [snd].
  split; [now apply wf_after_WriteEntry|].
  split; [unfold after_WriteEntry; cbn; now rewrite pool_after_Get|].
  split; [intros l Hl; now apply live_after_WriteEntry|].
  unfold after_WriteEntry, after_Get, textPool_Get.
  destruct (pool w); cbn; lia.
Qed.

(** X4. What a recycled encoder held never shows: whatever is stored
    in the encoder the pool is about to hand out, [Clone] returns a
    copy of the three fields of its receiver, and [WriteEntry] returns
    the same result, writes the same bytes and leaves the same
    line in the final encoder. *)
Theorem X4_stale_content_never_shows (w : World) (enc : loc)
        (stale : textEncoder) (sink : io_Writer Ext)
        (caller : string) (line : Z) (msg : string) (lvl : Level) (t : Time) :
  live w enc ->
  let ws := set_cell (got w) stale w in
  cell (snd (Clone enc ws)) (fst (Clone enc ws)) = cell w enc
  /\ fst (WriteEntry enc sink caller line msg lvl t ws)
     = fst (WriteEntry enc sink caller line msg lvl t w)
  /\ outside (snd (WriteEntry enc sink caller line msg lvl t ws))
     = outside (snd (WriteEntry enc sink caller line msg lvl t w))
  /\ bytes (cell (snd (WriteEntry enc sink caller line msg lvl t ws)) (got w))
     = rendered (cell w enc) caller line msg lvl t.
Proof.
  intros Hlive ws. pose proof (got_fresh _ _ Hlive) as Hne.
  assert (Hgot : got ws = got w) by reflexivity.
  assert (Hcell : cell ws enc = cell w enc)
    by (apply cell_set_cell_ne; assumption).
  rewrite Clone_run by (rewrite Hgot; assumption).
  rewrite !WriteEntry_run by (rewrite ?Hgot; assumption).
  cbn [fst snd]. rewrite Hgot, Hcell, cell_set_cell_eq.
  repeat split.
  unfold after_WriteEntry. rewrite Hgot.
  unfold cell at 1. cbn [heap set_pool set_outside set_cell].
  rewrite lookup_total_insert_eq. reflexivity.
Qed.

(** X5. [NewTextEncoder] with time-format options returns an encoder
    with an empty buffer whose time format is the layout of the last
    option, or RFC3339 without options, whatever the pool held; no
    other encoder changes. *)
Theorem X5_NewTextEncoder (layouts : list string) (w : World) :
  let enc := fst (NewTextEncoder (map TextTimeFormat layouts) w) in
  let w' := snd (NewTextEncoder (map TextTimeFormat layouts) w) in
  enc = got w
  /\ bytes (cell w' enc) = []
  /\ timeFmt (cell w' enc) = List.last layouts RFC3339
  /\ (forall l, l ≠ got w -> heap w' !! l = heap w !! l)
  /\ pool w' = tail (pool w) /\ outside w' = outside w.
Proof.
  assert (Hopts : forall (ls : list string) (enc : loc) (e : textEncoder)
                         (w0 : World),
             apply_options (map TextTimeFormat ls) enc (set_cell enc e w0)
             = (tt, set_cell enc (with_timeFmt (List.last ls (timeFmt e)) e) w0)).
  { induction ls as [|a ls IH]; intros enc e w0; cbn [map apply_options].
    - cbn [mret M_ret List.last]. destruct e; reflexivity.
    - change (TextTimeFormat a enc)
        with (modify (Ext := Ext) enc (with_timeFmt a)).
      rewrite bind_modify, cell_set_cell_eq, set_cell_set_cell, IH.
      f_equal. f_equal. unfold with_timeFmt. cbn [timeFmt bytes firstNested].
      f_equal. destruct ls as [|b ls]; [reflexivity|].
      change (List.last (a :: b :: ls) (timeFmt e))
        with (List.last (b :: ls) (timeFmt e)).
      clear. revert b. induction ls as [|c ls IH]; intros b; [reflexivity|].
      exact (IH c). }
  intros enc w'. subst enc w'. unfold NewTextEncoder, truncate.
  erewrite bind_run by apply Get_run.
  rewrite !bind_modify, cell_set_cell_eq, set_cell_set_cell.
  erewrite bind_run by apply Hopts.
  cbn [mret M_ret fst snd]. rewrite cell_set_cell_eq.
  split; [reflexivity|]. split; [reflexivity|]. split; [reflexivity|].
  split; [|split].
  - intros l Hl. rewrite heap_set_cell_ne by congruence.
    now apply heap_after_Get.
  - cbn. apply pool_after_Get.
  - cbn. apply outside_after_Get.
Qed.

(** X6. [Clone] on an encoder that was freed, when the pool hands the
    same encoder out: the clone is the receiver itself, and its buffer
    is now empty. *)
Theorem X6_Clone_of_freed (enc : loc) (free : list loc) (w : World) :
  pool w = enc :: free ->
  fst (Clone enc w) = enc
  /\ bytes (cell (snd (Clone enc w)) enc) = []
  /\ timeFmt (cell (snd (Clone enc w)) enc) = timeFmt (cell w enc)
  /\ pool (snd (Clone enc w)) = free.
Proof.
  intros Hp. rewrite (Clone_freed_run enc free w Hp). cbn [fst snd].
  rewrite cell_set_cell_eq. repeat split.
Qed.

(** X7. [WriteEntry] on an encoder that was freed, when the pool hands
    the same encoder out as the final one: the context is lost and the
    line written is the header twice, each followed by a space; the
    line is what the encoder holds afterwards, and the encoder is in
    the pool again. *)
Theorem X7_WriteEntry_of_freed (enc : loc) (free : list loc)
        (sink : io_Writer Ext) (caller : string) (line : Z) (msg : string)
        (lvl : Level) (t : Time) (w : World) :
  pool w = enc :: free ->
  let h := header (timeFmt (cell w enc)) caller line msg lvl t in
  let ln := (h ++ [" "%byte]) ++ (h ++ [" "%byte]) ++ [x0a] in
  let w' := snd (WriteEntry enc sink caller line msg lvl t w) in
  outside w' = snd (sink ln (outside w))
  /\ fst (WriteEntry enc sink caller line msg lvl t w)
     = write_result (fst (fst (sink ln (outside w))))
                    (snd (fst (sink ln (outside w)))) (len ln)
  /\ bytes (cell w' enc) = ln
  /\ pool w' = enc :: free.
Proof.
  intros Hp h ln w'. subst w'.
  rewrite (WriteEntry_freed_run enc free sink caller line msg lvl t w Hp).
  cbn [fst snd]. fold h. fold ln. repeat split.
  unfold cell. cbn [heap set_pool set_outside set_cell].
  now rewrite lookup_total_insert_eq.
Qed.

(** X8. A log call (whose fields' marshalers use only the sink they are
    given) leaves the encoder of the logger as it was, keeps the free
    list well formed and every encoder in use in use, allocates at
    most two encoders, and when it passes the gate it ends with the two
    encoders it took at the head of the free list. *)
Theorem X8_log_keeps_the_logger (log : Meta Ext) (site : string * Z)
        (now : Time) (L : Level) (msg : string) (fields : list (Field Ext))
        (w : World) :
  wf w -> live w (Encoder log) -> Forall field_kv_only fields ->
  let w' := snd (logger_log log site now L msg fields w) in
  cell w' (Encoder log) = cell w (Encoder log)
  /\ wf w'
  /\ (forall l, live w l -> live w' l)
  /\ (next w <= next w' <= 2 + next w)%nat
  /\ (L >= lvl log ->
      exists final rest, pool w' = got w :: final :: rest /\ final ≠ got w).
Proof.
  intros Hwf Hlive Hfs w'. subst w'.
  destruct (Z_lt_ge_dec L (lvl log)) as [Hlt|Hge].
  { unfold logger_log, Level_body. cbn [fst].
    replace (L >=? lvl log) with false by lia. cbn [negb mret M_ret snd].
    split; [reflexivity|]. split; [assumption|]. split; [auto|].
    split; [lia|]. intros Hge. lia. }
  rewrite logger_log_run by (assumption || lia). cbn [snd].
  pose proof (got_fresh _ _ Hlive) as Hne.
  set (w1 := snd (Clone (Encoder log) w)).
  set (w2 := snd (addFields (got w) fields w1)).
  assert (Hw1 : w1 = set_cell (got w) (cell w (Encoder log)) (after_Get w)).
  { subst w1. now rewrite Clone_run. }
  pose proof (touches_only_addFields (got w) fields Hfs w1) as (Hn2 & Hp2 & Hh2).
  fold w2 in Hn2, Hp2, Hh2.
  assert (Hwf1 : wf w1) by (rewrite Hw1; apply (wf_after_Get w Hwf)).
  assert (Hwf2 : wf w2) by (unfold wf; rewrite Hn2, Hp2; exact Hwf1).
  assert (Hlive1 : forall l, live w l -> live w1 l).
  { intros l Hl. rewrite Hw1. apply live_set_cell. now apply live_after_Get. }
  assert (Hlive2 : forall l, live w1 l -> live w2 l).
  { intros l Hl. unfold live. rewrite Hn2, Hp2. exact Hl. }
  assert (Htemp : live w2 (got w)).
  { apply Hlive2. rewrite Hw1. apply live_set_cell.
    now apply got_live_after_Get. }
  pose proof (got_fresh _ _ Htemp) as Hfinal.
  pose proof (got_live_after_Get w2 Hwf2) as [Hflt Hfni].
  destruct (wf_after_Get w2 Hwf2) as [Hnd Hall].
  destruct (live_after_Get w2 _ Htemp) as [Htlt Htni].
  split; [|split; [|split; [|split]]].
  - assert (Hl2 : live w2 (Encoder log)) by (apply Hlive2, Hlive1, Hlive).
    pose proof (got_fresh _ _ Hl2) as Hne2.
    unfold cell. cbn [heap set_pool set_outside].
    rewrite !lookup_total_alt, heap_set_cell_ne by congruence.
    rewrite heap_after_Get by congruence.
    rewrite Hh2 by congruence. rewrite Hw1.
    rewrite heap_set_cell_ne by assumption.
    rewrite heap_after_Get by congruence. reflexivity.
  - unfold wf. cbn [pool next set_pool set_outside set_cell]. split.
    + constructor; [|constructor; assumption].
      rewrite not_elem_of_cons. split; [congruence|assumption].
    + constructor; [assumption|constructor; assumption].
  - intros l Hl. assert (Hl2 : live w2 l) by (apply Hlive2, Hlive1, Hl).
    pose proof (got_fresh _ _ Hl2) as Hnf.
    pose proof (got_fresh _ _ Hl) as Hnt.
    destruct (live_after_Get w2 l Hl2) as [Hllt Hlni].
    unfold live. cbn [pool next set_pool set_outside set_cell].
    split; [assumption|]. rewrite !not_elem_of_cons.
    repeat split; congruence.
  - cbn [next set_pool set_outside set_cell].
    assert (H1 : (next w <= next w1 <= S (next w))%nat).
    { rewrite Hw1. cbn [next set_cell]. unfold after_Get, textPool_Get.
      destruct (pool w); cbn; lia. }
    assert (H2 : (next w2 <= next (after_Get w2) <= S (next w2))%nat).
    { unfold after_Get, textPool_Get. destruct (pool w2); cbn; lia. }
    lia.
  - intros _. cbn [pool set_pool]. eexists _, _. split; [reflexivity|].
    assumption.
Qed.

End Further.

Section Loggers.
Context {Ext : Type} {levels : Levels} {timelib : TimeLib}.

Local Abbreviation World := (World Ext).
Local Abbreviation M := (M Ext).

Lemma NewTextEncoder_default_run (w : World) :
  NewTextEncoder [] w
  = (got w, set_cell (got w)
              {| bytes := []; timeFmt := RFC3339;
                 firstNested := firstNested (cell (after_Get w) (got w)) |}
              (after_Get w)).
Proof.
  unfold NewTextEncoder, truncate.
  erewrite bind_run by apply Get_run.
  rewrite !bind_modify, cell_set_cell_eq, set_cell_set_cell.
  reflexivity.
Qed.

(** X9. [Init] on a well-formed pool gives a logger at [InfoLevel]
    with an encoder in use that no one else holds; the free list stays
    well formed and the encoders in use stay as they are.  A first
    [Info] without fields then writes to the file the line made of the
    header with the RFC3339 timestamp and a newline, and reports a
    failed write on standard error. *)
Theorem X9_Init_then_Info (stdout stderr f : WriteSyncer Ext)
        (site : string * Z) (now : Time) (msg : string) (w : World) :
  wf w ->
  let log := fst (Init stdout stderr f w) in
  let w' := snd (Init stdout stderr f w) in
  let entry := header RFC3339 (fst site) (snd site) msg InfoLevel now
                 ++ [x0a] in
  let r := Write f entry (outside w) in
  let err := write_result (fst (fst r)) (snd (fst r)) (len entry) in
  lvl log = InfoLevel
  /\ wf w' /\ live w' (Encoder log) /\ ~ live w (Encoder log)
  /\ (forall l, live w l -> live w' l /\ cell w' l = cell w l)
  /\ outside (snd (Info log site now msg [] w'))
     = match err with
       | None => snd r
       | Some e => snd (Sync stderr
                          (snd (Write stderr (bytes_of e ++ [x0a]) (snd r))))
       end.
Proof.
  intros Hwf log w' entry r err. subst log w'. unfold Init.
  erewrite bind_run by apply NewTextEncoder_default_run.
  cbn [mret M_ret fst snd].
  set (e0 := {| bytes := []; timeFmt := RFC3339;
                firstNested := firstNested (cell (after_Get w) (got w)) |}).
  set (w' := set_cell (got w) e0 (after_Get w)).
  set (log := with_Output (newLockedWriteSyncer f)
                          (MakeMeta stdout stderr (got w))).
  assert (Hwf' : wf w') by (apply (wf_after_Get w Hwf)).
  assert (Hlive' : live w' (got w))
    by (apply live_set_cell; now apply got_live_after_Get).
  split; [reflexivity|]. split; [exact Hwf'|]. split; [exact Hlive'|].
  split; [intros Hl; now apply (got_fresh _ _ Hl)|].
  split.
  { intros l Hl. pose proof (got_fresh _ _ Hl) as Hne. split.
    - apply live_set_cell. now apply live_after_Get.
    - unfold cell. rewrite !lookup_total_alt. subst w'.
      rewrite heap_set_cell_ne by assumption.
      rewrite heap_after_Get by congruence. reflexivity. }
  unfold Info.
  rewrite (logger_log_emits log site now InfoLevel msg [] w' Hwf' Hlive'
             (Forall_nil_2 _)) by (cbn; lia).
  cbn [addFields mret M_ret snd].
  pose proof (got_fresh _ _ Hlive') as Hne.
  change (Encoder log) with (got w) in *.
  rewrite Clone_run by assumption. cbn [snd].
  assert (Hc : cell w' (got w) = e0) by apply cell_set_cell_eq.
  rewrite cell_set_cell_eq, Hc, rendered_header.
  assert (Ho : outside (set_cell (got w') e0 (after_Get w')) = outside w).
  { change (outside (after_Get w') = outside w).
    rewrite outside_after_Get. apply outside_after_Get. }
  rewrite Ho. reflexivity.
Qed.

(** X10. [Meta.Clone] returns a copy of the logger with the same
    level, outputs and mode and with an encoder of its own that holds
    what the encoder of the receiver holds; key/value calls on the
    encoder of the copy, nested marshalers included, leave the encoder
    of the receiver as it was. *)
Theorem X10_Meta_Clone (m : Meta Ext) (cs : list kv_call) (w : World) :
  wf w -> live w (Encoder m) ->
  let m' := fst (Meta_Clone m w) in
  let w' := snd (Meta_Clone m w) in
  lvl m' = lvl m /\ Output m' = Output m /\ ErrorOutput m' = ErrorOutput m
  /\ Development m' = Development m
  /\ Encoder m' ≠ Encoder m
  /\ wf w' /\ live w' (Encoder m') /\ live w' (Encoder m)
  /\ cell w' (Encoder m') = cell w (Encoder m)
  /\ cell (snd (invoke_all (Encoder m') cs w')) (Encoder m)
     = cell w (Encoder m).
Proof.
  intros Hwf Hlive m' w'. subst m' w'. unfold Meta_Clone.
  pose proof (got_fresh _ _ Hlive) as Hne.
  erewrite bind_run by (apply Clone_run; assumption).
  cbn [mret M_ret fst snd with_Encoder lvl Output ErrorOutput Development
       Encoder].
  do 4 (split; [reflexivity|]). split; [assumption|].
  split; [apply (wf_after_Get w Hwf)|].
  split; [apply live_set_cell; now apply got_live_after_Get|].
  split; [apply live_set_cell; now apply live_after_Get|].
  split; [apply cell_set_cell_eq|].
  assert (Hkeep : cell (set_cell (got w) (cell w (Encoder m)) (after_Get w))
                       (Encoder m) = cell w (Encoder m)).
  { rewrite cell_set_cell_ne by assumption.
    unfold cell. rewrite !lookup_total_alt.
    rewrite heap_after_Get by congruence. reflexivity. }
  rewrite invoke_all_step by (intros c _ w0; apply invoke_run). cbn [snd].
  destruct cs as [|c cs]; [exact Hkeep|].
  rewrite cell_set_cell_ne by assumption. exact Hkeep.
Qed.

End Loggers.

Section Tags.
Context {Ext : Type} {levels : Levels} {timelib : TimeLib}.

Local Abbreviation World := (World Ext).

Lemma Itoa_not_letter (l : Z) (b : byte) :
  Atoi [b] ≠ l \/ strconv.Itoa (Atoi [b]) ≠ [b] -> strconv.Itoa l ≠ [b].
Proof.
  intros H Heq. pose proof (Atoi_Itoa l) as Hl. rewrite Heq in Hl.
  destruct H as [H|H]; [contradiction|]. rewrite Hl, Heq in H. contradiction.
Qed.

Lemma tag_level_Itoa (l : Z) : tag_level (strconv.Itoa l) = l.
Proof.
  assert (HD : strconv.Itoa l ≠ ["D"%byte])
    by (apply Itoa_not_letter; right; vm_compute; discriminate).
  assert (HI : strconv.Itoa l ≠ ["I"%byte])
    by (apply Itoa_not_letter; right; vm_compute; discriminate).
  assert (HW : strconv.Itoa l ≠ ["W"%byte])
    by (apply Itoa_not_letter; right; vm_compute; discriminate).
  assert (HE : strconv.Itoa l ≠ ["E"%byte])
    by (apply Itoa_not_letter; right; vm_compute; discriminate).
  assert (HP : strconv.Itoa l ≠ ["P"%byte])
    by (apply Itoa_not_letter; right; vm_compute; discriminate).
  assert (HF : strconv.Itoa l ≠ ["F"%byte])
    by (apply Itoa_not_letter; right; vm_compute; discriminate).
  pose proof (Atoi_Itoa l) as Hl.
  unfold tag_level.
  destruct (strconv.Itoa l) as [|b bs]; [exact Hl|].
  destruct b; try exact Hl; destruct bs; try exact Hl;
    exfalso; auto.
Qed.

(** X11. With six different level constants, [addLevel] writes the
    letter D, I, W, E, P or F between brackets for the six standard
    levels and the decimal of any other level, and the level can be
    read back from what is written: different levels never get the
    same tag. *)
Theorem X11_level_tags (enc final : loc) (l : Level) (w : World) :
  distinct_levels ->
  let tag := level_tag l in
  bytes (cell (snd (addLevel enc final l w)) final)
  = bytes (cell w final) ++ ["["%byte] ++ tag ++ ["]"%byte]
  /\ tag = (if decide (l = DebugLevel) then ["D"%byte]
            else if decide (l = InfoLevel) then ["I"%byte]
            else if decide (l = WarnLevel) then ["W"%byte]
            else if decide (l = ErrorLevel) then ["E"%byte]
            else if decide (l = PanicLevel) then ["P"%byte]
            else if decide (l = FatalLevel) then ["F"%byte]
            else strconv.Itoa l)
  /\ tag_level tag = l.
Proof.
  intros Hd tag. subst tag.
  unfold distinct_levels in Hd.
  rewrite !NoDup_cons, !not_elem_of_cons in Hd.
  destruct Hd as ((H1 & H2 & H3 & H4 & H5 & _) & (H6 & H7 & H8 & H9 & _)
                  & (H10 & H11 & H12 & _) & (H13 & H14 & _) & (H15 & _) & _).
  split; [rewrite addLevel_run; cbn [snd]; now rewrite cell_set_cell_eq|].
  unfold level_tag.
  repeat match goal with
         | |- context [decide (?a = ?b)] => destruct (decide (a = b)) as [->|?]
         end;
    repeat match goal with
           | |- context [?a =? ?a] => rewrite (Z.eqb_refl a)
           | |- context [?a =? ?b] =>
               replace (a =? b) with false by (symmetry; apply Z.eqb_neq; congruence)
           end;
    (split; [reflexivity|]); try reflexivity.
  apply tag_level_Itoa.
Qed.

(** X12. The caller that [WriteEntry] renders from the result of
    [CallerName1] is [CallerName] after a space when the frame is
    found; when it is not, [CallerName] is the empty string (and only
    then), but the entry still carries [[:0]]. *)
Theorem X12_caller_names (path_Base : string -> string)
        (frame : option (string * Z)) (enc final : loc) (w : World) :
  let site := CallerName1 path_Base frame in
  bytes (cell (snd (addCaller enc final (fst site) (snd site) w)) final)
  = bytes (cell w final)
      ++ " "%byte :: match frame with
                     | Some _ => bytes_of (CallerName path_Base frame)
                     | None => bytes_of "[:0]"
                     end
  /\ (CallerName path_Base frame = ""%string <-> frame = None).
Proof.
  intros site. subst site. rewrite addCaller_run. cbn [snd].
  rewrite cell_set_cell_eq. cbn [bytes with_bytes]. split.
  - f_equal. destruct frame as [[file line]|]; [|reflexivity].
    cbn [CallerName1 CallerName fst snd].
    rewrite !bytes_of_append, bytes_of_string_of_list_byte. reflexivity.
  - destruct frame as [[file line]|]; cbn [CallerName].
    + split; discriminate.
    + split; reflexivity.
Qed.

(** X14. [AddSync] on a writer that [AddSync] returned gives that
    writer back: wrappers are never stacked. *)
Theorem X14_AddSync_idempotent (w : Writer Ext) :
  AddSync (AddSync w) = AddSync w.
Proof.
  unfold AddSync. destruct w as [wr [s|] [fl|]]; reflexivity.
Qed.

(** X15. Values are written as they are: one [AddString] whose value
    holds a space, a second key, ['='] and a second value leaves the
    bytes that two [AddString] calls leave, so the text does not
    tell the two apart. *)
Theorem X15_values_not_escaped (enc : loc) (k1 v1 k2 v2 : string)
        (w : World) :
  let joined := String.append v1
                  (String.append " " (String.append k2 (String.append "=" v2))) in
  bytes (cell (snd (AddString enc k1 joined w)) enc)
  = bytes (cell (snd ((AddString enc k1 v1;; AddString enc k2 v2) w)) enc).
Proof.
  intros joined. subst joined.
  erewrite (bind_run (AddString enc k1 v1)) by apply AddString_run.
  rewrite !AddString_run. cbn [snd]. rewrite !cell_set_cell_eq.
  unfold field_cell. rewrite !key_cell_spaced.
  set (e := cell w enc).
  assert (Hs : wants_space
                 ({| bytes := (bytes e ++ spaced (wants_space e)
                                (bytes_of k1 ++ bytes_of "=")) ++ bytes_of v1;
                     timeFmt := timeFmt e; firstNested := false |}) = true).
  { unfold wants_space. cbn [bytes firstNested negb]. rewrite andb_true_r.
    apply Z.ltb_lt. unfold len.
    rewrite !length_app.
    destruct ((0 <? _) && negb (firstNested e)); cbn [spaced length app];
      rewrite ?length_app;
      change (length (bytes_of "=")) with 1%nat; lia. }
  cbn [bytes]. rewrite !bytes_of_append.
  cbn [bytes timeFmt firstNested with_bytes].
  rewrite Hs. cbn [spaced].
  change (" "%byte :: bytes_of k2 ++ bytes_of "=")
    with (bytes_of " " ++ bytes_of k2 ++ bytes_of "=").
  rewrite <- !app_assoc. reflexivity.
Qed.

End Tags.

(** ** The further properties at concrete inputs *)

Lemma wf_boot : wf (boot (([], []) : Files)).
Proof. vm_compute. split; constructor. Qed.

Lemma live_recycled : live recycled 0%nat.
Proof.
  split; [vm_compute; lia|]. change (pool recycled) with [1%nat].
  rewrite not_elem_of_cons. split; [lia|apply not_elem_of_nil].
Qed.

Lemma distinct_example_levels : distinct_levels (levels := example_levels).
Proof.
  unfold distinct_levels. apply NoDup_ListNoDup.
  repeat (constructor; [cbn; lia|]). constructor.
Qed.

(** X2 with a file that takes the whole line and with one that drops
    the last byte. *)
Lemma X2_witness :
  fst (WriteEntry (levels := example_levels) (timelib := go_time) 0%nat
         (Write file_sink) "file.go" 42 "m" 0 new_year_2024 started) = None
  /\ fst (WriteEntry (levels := example_levels) (timelib := go_time) 0%nat
            (Write short_sink) "file.go" 42 "m" 0 new_year_2024 started)
     ≠ None.
Proof.
  split.
  - apply (X2_WriteEntry_nil_iff (levels := example_levels)
             (timelib := go_time) started 0%nat (Write file_sink)
             "file.go" 42 "m" 0 new_year_2024 live_started).
    vm_compute. split; reflexivity.
  - intros H.
    apply (X2_WriteEntry_nil_iff (levels := example_levels)
             (timelib := go_time) started 0%nat (Write short_sink)
             "file.go" 42 "m" 0 new_year_2024 live_started) in H.
    vm_compute in H. destruct H as [_ H]. discriminate H.
Defined.

(** X3 on the encoder of [Init], with a sink that fails. *)
Lemma X3_witness :
  let w' := snd (WriteEntry (levels := example_levels) (timelib := go_time)
                   0%nat (Write broken_sink) "file.go" 42 "m" 0
                   new_year_2024 started) in
  wf w' /\ pool w' = [1%nat] /\ live w' 0%nat /\ next w' = 2%nat.
Proof.
  destruct (X3_WriteEntry_pool (levels := example_levels)
              (timelib := go_time) started 0%nat (Write broken_sink)
              "file.go" 42 "m" 0 new_year_2024 wf_started live_started)
    as (Hwf & Hpool & Hlive & _).
  split; [exact Hwf|]. split; [exact Hpool|].
  split; [exact (Hlive 0%nat live_started)|]. vm_compute. reflexivity.
Defined.

(** X4 with the encoder 1 in the pool, holding an old field, another
    time format and a set flag, while the encoder 0 holds [k=v]. *)
Lemma X4_witness :
  let stale := {| bytes := bytes_of "old=1"; timeFmt := "";
                  firstNested := true |} in
  let ws := set_cell 1%nat stale recycled in
  pool ws = [1%nat] /\ cell ws 1%nat = stale
  /\ fst (Clone 0%nat ws) = 1%nat
  /\ cell (snd (Clone 0%nat ws)) 1%nat
     = {| bytes := bytes_of "k=v"; timeFmt := RFC3339;
          firstNested := false |}
  /\ outside (snd (WriteEntry (levels := example_levels)
                     (timelib := go_time) 0%nat (Write file_sink)
                     "file.go" 42 "m" 0 new_year_2024 ws))
     = ([line "[I] 2024-01-01T00:00:00Z [file.go:42] m k=v"], []).
Proof.
  intros stale ws.
  destruct (X4_stale_content_never_shows (levels := example_levels)
              (timelib := go_time) recycled 0%nat stale (Write file_sink)
              "file.go" 42 "m" 0 new_year_2024 live_recycled)
    as (Hclone & _ & Hout & _).
  change (set_cell (got recycled) stale recycled) with ws in Hclone, Hout.
  split; [reflexivity|]. split; [reflexivity|]. split; [reflexivity|].
  split.
  - change (fst (Clone 0%nat ws)) with 1%nat in Hclone.
    rewrite Hclone. vm_compute. reflexivity.
  - rewrite Hout. vm_compute. reflexivity.
Defined.

(** X6 on an encoder that got a field and was freed. *)
Lemma X6_witness :
  bytes (cell freed 0%nat) = bytes_of "k=v"
  /\ fst (Clone 0%nat freed) = 0%nat
  /\ bytes (cell (snd (Clone 0%nat freed)) 0%nat) = [].
Proof.
  destruct (X6_Clone_of_freed 0%nat [] freed eq_refl) as (Hc & Hb & _).
  split; [reflexivity|]. exact (conj Hc Hb).
Defined.

(** X7 on the same encoder: the field is gone and the header is there
    twice. *)
Lemma X7_witness :
  outside (snd (WriteEntry (levels := example_levels) (timelib := go_time)
                  0%nat (Write file_sink) "file.go" 42 "m" 0 new_year_2024
                  freed))
  = ([line ("[I] 2024-01-01T00:00:00Z [file.go:42] m "
            ++ "[I] 2024-01-01T00:00:00Z [file.go:42] m ")], []).
Proof.
  destruct (X7_WriteEntry_of_freed (levels := example_levels)
              (timelib := go_time) 0%nat [] (Write file_sink)
              "file.go" 42 "m" 0 new_year_2024 freed eq_refl)
    as (Hout & _).
  rewrite Hout. vm_compute. reflexivity.
Defined.

(** X8 on the logger of [Init], with one field. *)
Lemma X8_witness :
  let w' := snd (logger_log (levels := example_levels) (timelib := go_time)
                   dlogger0 ("file.go"%string, 42) new_year_2024 0 "m"
                   [dlog_String "k" "v"] started) in
  cell w' 0%nat = cell started 0%nat
  /\ wf w' /\ live w' 0%nat
  /\ exists final rest, pool w' = 1%nat :: final :: rest /\ final ≠ 1%nat.
Proof.
  destruct (X8_log_keeps_the_logger (levels := example_levels)
              (timelib := go_time) dlogger0 ("file.go"%string, 42)
              new_year_2024 0 "m" [dlog_String "k" "v"] started
              wf_started live_started ltac:(repeat constructor))
    as (Hcell & Hwf & Hlive & _ & Hpool).
  split; [exact Hcell|]. split; [exact Hwf|].
  split; [exact (Hlive 0%nat live_started)|].
  apply Hpool. vm_compute. discriminate.
Defined.

(** X9 on a program that has not used the pool. *)
Lemma X9_witness :
  lvl dlogger0 = 0
  /\ wf started /\ live started (Encoder dlogger0)
  /\ outside (snd (Info (levels := example_levels) (timelib := go_time)
                     dlogger0 ("file.go"%string, 42) new_year_2024 "m" []
                     started))
     = ([line "[I] 2024-01-01T00:00:00Z [file.go:42] m"], []).
Proof.
  destruct (X9_Init_then_Info (levels := example_levels)
              (timelib := go_time) stderr_sink stderr_sink file_sink
              ("file.go"%string, 42) new_year_2024 "m" (boot ([], []))
              wf_boot)
    as (Hlvl & Hwf & Hlive & _ & _ & Hout).
  split; [exact Hlvl|]. split; [exact Hwf|]. split; [exact Hlive|].
  unfold dlogger0, started. rewrite Hout. vm_compute. reflexivity.
Defined.

(** X10 on the logger of [Init] once its encoder holds [k=v]: the
    encoder of the copy holds [k=v]; the copy then gets a marshaler
    with a field. *)
Lemma X10_witness :
  let cs := [PutMarshaler "obj" [Put "a" (VInt 1)] None] in
  let m' := fst (Meta_Clone dlogger0 with_context) in
  let w' := snd (Meta_Clone dlogger0 with_context) in
  Encoder m' ≠ Encoder dlogger0
  /\ cell w' (Encoder m')
     = {| bytes := bytes_of "k=v"; timeFmt := RFC3339;
          firstNested := false |}
  /\ bytes (cell (snd (invoke_all (Encoder m') cs w')) (Encoder m'))
     = bytes_of "k=v obj={a=1}"
  /\ cell (snd (invoke_all (Encoder m') cs w')) (Encoder dlogger0)
     = {| bytes := bytes_of "k=v"; timeFmt := RFC3339;
          firstNested := false |}.
Proof.
  intros cs.
  destruct (X10_Meta_Clone dlogger0 cs with_context wf_with_context
              live_with_context)
    as (_ & _ & _ & _ & Hne & _ & _ & _ & Hc & Hk).
  split; [exact Hne|]. split; [rewrite Hc; vm_compute; reflexivity|].
  split; [vm_compute; reflexivity|]. rewrite Hk. vm_compute. reflexivity.
Defined.

(** X11 with the levels -1 to 4: the tag of [WarnLevel] and the tag of
    the custom level 7. *)
Lemma X11_witness :
  level_tag (levels := example_levels) 1 = ["W"%byte]
  /\ tag_level (levels := example_levels)
       (level_tag (levels := example_levels) 7) = 7.
Proof.
  destruct (X11_level_tags (Ext := Files) (levels := example_levels)
              0%nat 0%nat 1 started distinct_example_levels)
    as (_ & Hw & _).
  destruct (X11_level_tags (Ext := Files) (levels := example_levels)
              0%nat 0%nat 7 started distinct_example_levels)
    as (_ & _ & H7).
  split; [rewrite Hw; reflexivity|exact H7].
Defined.
